(** * ha_keti: the KETI storage-engine handler and its socket protocol

    A shallow embedding of [storage/keti/ha_keti.cc].  The handler turns
    [write_row] and the table scan ([rnd_init], [rnd_next], [rnd_end]) into
    exchanges over a TCP socket with one fixed peer.  The embedding keeps

    - C memory reached through a pointer as a map from offsets to bytes,
      so that what lies behind the bytes a [recv] has written (an
      uninitialised stack array, the rest of the host's record buffer) is
      an explicit input;
    - the operating system and the peer as a [kernel]: functions from the
      history of system calls to the answer of the next one;
    - the handler's effects as a state monad over a [world] that holds the
      open descriptors, the system-call history, the handler's
      [client_sockfd] member and the two session variables [create] sets.

    Diagnostic output ([printf], [perror], [DBUG_PRINT]) reaches neither
    the socket nor any handler state and is left out. *)

From Stdlib Require Import ZArith List String Lia Bool.
From Stdlib Require Import Strings.Byte.
Import ListNotations.
Local Open Scope Z_scope.

(** ** C memory and C strings *)

Module CMem.

(** The bytes found at successive offsets from a pointer. *)
Definition memory : Type := nat -> byte.

(** An [unsigned char] as the integer the comparison functions see. *)
Definition uchar (b : byte) : Z := Z.of_N (Byte.to_N b).

(** The [n] bytes a call such as [send(fd, p, n, 0)] reads from [p]. *)
Definition load (m : memory) (n : nat) : list byte := map m (seq 0 n).

(** The memory after a call has written [data] at the pointer: the
    first [length data] offsets change, every later one keeps its
    previous content. *)
Definition store (data : list byte) (m : memory) : memory :=
  fun i => nth i data (m i).

(** Memory that holds [l] and then [fill] for ever. *)
Definition of_list (l : list byte) (fill : byte) : memory :=
  fun i => nth i l fill.

(** [strcmp(s1 + i, s2)] for a string [s2] given by its characters,
    the terminating NUL implied: the difference of the first pair of
    bytes that differ, 0 when both strings end together. *)
Fixpoint strcmp_from (s1 : memory) (i : nat) (s2 : list byte) : Z :=
  match s2 with
  | [] => uchar (s1 i) - uchar x00
  | c :: s2' =>
      if Byte.eqb (s1 i) c
      then if Byte.eqb c x00 then 0 else strcmp_from s1 (S i) s2'
      else uchar (s1 i) - uchar c
  end.

Definition strcmp (s1 : memory) (s2 : list byte) : Z := strcmp_from s1 0 s2.

End CMem.
Import CMem.

(** The characters of a C string literal. *)
Definition lit (s : string) : list byte := list_byte_of_string s.

(** ** System calls, the kernel and the world *)

(** One system call with its arguments and its result. *)
Inductive event : Type :=
| EvSocket (ret : Z)
| EvConnect (fd : Z) (addr : string) (port : Z) (ret : Z)
| EvSend (fd : Z) (data : list byte) (ret : Z)
| EvRecv (fd : Z) (len : nat) (ret : Z) (data : list byte)
| EvClose (fd : Z).

(** What [recv] can answer: an error, or the bytes that arrived (none
    when the peer has shut the stream down). *)
Inductive recv_answer : Type :=
| RecvError
| RecvBytes (data : list byte).

(** The operating system together with the peer: each answer is a
    function of the calls made so far and of the arguments of the call. *)
Record kernel : Type := {
  k_socket  : list event -> option nat;
  k_connect : list event -> Z -> bool;
  k_send    : list event -> Z -> list byte -> option nat;
  k_recv    : list event -> Z -> nat -> recv_answer
}.

Record world : Type := {
  open_fds            : list Z;             (* descriptors open in the process *)
  calls               : list event;         (* system calls so far, oldest first *)
  client_sockfd       : Z;                  (* ha_keti::client_sockfd *)
  last_create_thdvar  : option (list byte); (* THDVAR(thd, last_create_thdvar) *)
  create_count_thdvar : Z                   (* THDVAR(thd, create_count_thdvar) *)
}.

Definition log_call (e : event) (w : world) : world :=
  {| open_fds := open_fds w; calls := calls w ++ [e];
     client_sockfd := client_sockfd w;
     last_create_thdvar := last_create_thdvar w;
     create_count_thdvar := create_count_thdvar w |}.

Definition set_open (l : list Z) (w : world) : world :=
  {| open_fds := l; calls := calls w;
     client_sockfd := client_sockfd w;
     last_create_thdvar := last_create_thdvar w;
     create_count_thdvar := create_count_thdvar w |}.

Definition set_client_sockfd (fd : Z) (w : world) : world :=
  {| open_fds := open_fds w; calls := calls w;
     client_sockfd := fd;
     last_create_thdvar := last_create_thdvar w;
     create_count_thdvar := create_count_thdvar w |}.

Definition set_last_create (s : list byte) (w : world) : world :=
  {| open_fds := open_fds w; calls := calls w;
     client_sockfd := client_sockfd w;
     last_create_thdvar := Some s;
     create_count_thdvar := create_count_thdvar w |}.

Definition set_create_count (n : Z) (w : world) : world :=
  {| open_fds := open_fds w; calls := calls w;
     client_sockfd := client_sockfd w;
     last_create_thdvar := last_create_thdvar w;
     create_count_thdvar := n |}.

(** The state monad the handler's methods run in. *)
Definition io (A : Type) : Type := world -> A * world.

Definition ret {A : Type} (a : A) : io A := fun w => (a, w).

Definition bind {A B : Type} (c : io A) (k : A -> io B) : io B :=
  fun w => let (a, w') := c w in k a w'.

Declare Scope io_scope.
Delimit Scope io_scope with io.
Notation "x <- c ;; k" := (bind c (fun x => k))
  (at level 61, c at next level, right associativity) : io_scope.
Notation "' pat <- c ;; k" := (bind c (fun x => match x with pat => k end))
  (at level 61, pat pattern, c at next level, right associativity) : io_scope.
Local Open Scope io_scope.

Definition get_client_sockfd : io Z := fun w => (client_sockfd w, w).
Definition put_client_sockfd (fd : Z) : io unit :=
  fun w => (tt, set_client_sockfd fd w).

Section Syscalls.

Variable K : kernel.

(** [socket(AF_INET, SOCK_STREAM, 0)]: a new descriptor, or -1. *)
Definition sys_socket : io Z := fun w =>
  match k_socket K (calls w) with
  | Some fd =>
      let r := Z.of_nat fd in
      (r, log_call (EvSocket r) (set_open (r :: open_fds w) w))
  | None => (-1, log_call (EvSocket (-1)) w)
  end.

(** [connect(fd, addr:port)]: 0, or -1. *)
Definition sys_connect (fd : Z) (addr : string) (port : Z) : io Z := fun w =>
  let r := if k_connect K (calls w) fd then 0 else -1 in
  (r, log_call (EvConnect fd addr port r) w).

(** [send(fd, p, n, 0)]: the number of bytes taken, at most [n], or -1. *)
Definition sys_send (fd : Z) (p : memory) (n : nat) : io Z := fun w =>
  let data := load p n in
  let r := match k_send K (calls w) fd data with
           | Some k => Z.of_nat (Nat.min k n)
           | None => -1
           end in
  (r, log_call (EvSend fd data r) w).

(** [recv(fd, p, n, 0)]: at most [n] of the bytes that arrived are
    written at [p] and counted; 0 when the stream is shut down; -1
    (and [p] untouched) on error. *)
Definition sys_recv (fd : Z) (p : memory) (n : nat) : io (Z * memory) := fun w =>
  match k_recv K (calls w) fd n with
  | RecvError => ((-1, p), log_call (EvRecv fd n (-1) []) w)
  | RecvBytes data =>
      let got := firstn n data in
      let r := Z.of_nat (List.length got) in
      ((r, store got p), log_call (EvRecv fd n r got) w)
  end.

(** [close(fd)].  The handler has no live call to it. *)
Definition sys_close (fd : Z) : io Z := fun w =>
  (0, log_call (EvClose fd) (set_open (remove Z.eq_dec fd (open_fds w)) w)).

End Syscalls.

(** ** The handler *)

(** A [const char *]: the address it holds (0 for NULL) and the
    characters of the string found there. *)
Record c_str : Type := { c_addr : Z; c_chars : list byte }.

Definition NULL : c_str := {| c_addr := 0; c_chars := [] |}.

Record st_handler_tablename : Type := { db : c_str; tablename : c_str }.

(** The system tables of the engine: only the terminating entry. *)
Definition ha_keti_system_tables : list st_handler_tablename :=
  [ {| db := NULL; tablename := NULL |} ].

(** The [while (systab && systab->db)] loop over the entries found from
    [systab] on. *)
Fixpoint systab_loop (systab : list st_handler_tablename)
    (db_name table_name : c_str) : bool :=
  match systab with
  | [] => false
  | e :: systab' =>
      if c_addr (db e) =? 0 then false
      else if (c_addr (db e) =? c_addr db_name)
              && (strcmp (of_list (c_chars (tablename e)) x00)
                         (c_chars table_name) =? 0)
           then true
           else systab_loop systab' db_name table_name
  end.

Definition keti_is_supported_system_table (db_name table_name : c_str)
    (is_sql_layer_system_table : bool) : bool :=
  if is_sql_layer_system_table then false
  else systab_loop ha_keti_system_tables db_name table_name.

(** A [key_range *] argument; [None] is the null pointer. *)
Record key_range : Type := {
  key : list byte; key_length : Z; keypart_map : Z; flag : Z
}.

Definition records_in_range (inx : Z) (min_key max_key : option key_range) : Z :=
  10.

(** The conversion of a [ssize_t], the result of [recv], to [int]: the
    value modulo 2^32 that lies in the range of [int]. *)
Definition to_int (z : Z) : Z := (z + 2 ^ 31) mod 2 ^ 32 - 2 ^ 31.

Section Handler.

(** Result codes of the host ([my_base.h]) and the size of the buffer
    [create] formats into; their values are the host's. *)
Variables HA_ERR_WRONG_COMMAND HA_ERR_END_OF_FILE : Z.
Variable SHOW_VAR_FUNC_BUFF_SIZE : nat.

Variable K : kernel.

(** [table->s->reclength] *)
Variable reclength : nat.

(** [write_row(buf)]; [recvbuf] is what the stack holds where the
    local array [char recvbuf[20]] comes to lie. *)
Definition write_row (buf : memory) (recvbuf : memory) : io Z :=
  client_sockfd <- sys_socket K ;;
  if client_sockfd =? -1 then ret (-1) else
  r <- sys_connect K client_sockfd "10.0.5.101" 8188 ;;
  if r =? -1 then ret (-1) else
  writelen <- sys_send K client_sockfd (of_list (lit "w") x00) 1 ;;
  writelen <- sys_send K client_sockfd buf reclength ;;
  ' (readlen, recvbuf) <- sys_recv K client_sockfd recvbuf 20 ;;
  if readlen <? 1 then ret (-1) else
  if negb (strcmp recvbuf (lit "success") =? 0) then ret (-1) else
  ret 0.

Definition rnd_init (scan : bool) : io Z :=
  fd <- sys_socket K ;;
  _ <- put_client_sockfd fd ;;
  if fd =? -1 then ret (-1) else
  r <- sys_connect K fd "10.0.5.101" 8188 ;;
  if r =? -1 then ret (-1) else
  ret 0.

Definition rnd_end : io Z := ret 0.

(** [rnd_next(buf)]: the result code and the memory at [buf] on return.
    What [recv] returns is narrowed to [int readlen]; the record may be
    of any length, whereas [write_row] asks for 20 bytes, where the
    narrowing changes nothing. *)
Definition rnd_next (buf : memory) : io (Z * memory) :=
  fd <- get_client_sockfd ;;
  writelen <- sys_send K fd (of_list (lit "r") x00) 1 ;;
  ' (received, buf) <- sys_recv K fd buf reclength ;;
  let readlen := to_int received in
  if readlen <? 1 then ret (-1, buf) else
  if negb (strcmp buf (lit "success") =? 0) then ret (-1, buf) else
  let rc := HA_ERR_END_OF_FILE in
  ret (rc, buf).

Definition update_row (old_data new_data : memory) : io Z :=
  ret HA_ERR_WRONG_COMMAND.

Definition delete_row (buf : memory) : io Z :=
  ret HA_ERR_WRONG_COMMAND.

Definition index_read_map (buf key : memory) (keypart_map find_flag : Z) : io Z :=
  let rc := HA_ERR_WRONG_COMMAND in ret rc.

Definition index_next (buf : memory) : io Z :=
  let rc := HA_ERR_WRONG_COMMAND in ret rc.

Definition index_prev (buf : memory) : io Z :=
  let rc := HA_ERR_WRONG_COMMAND in ret rc.

Definition index_first (buf : memory) : io Z :=
  let rc := HA_ERR_WRONG_COMMAND in ret rc.

Definition index_last (buf : memory) : io Z :=
  let rc := HA_ERR_WRONG_COMMAND in ret rc.

Definition rnd_pos (buf pos : memory) : io Z :=
  let rc := HA_ERR_WRONG_COMMAND in ret rc.

Definition delete_all_rows : io Z := ret HA_ERR_WRONG_COMMAND.

Definition delete_table (name : list byte) : io Z := ret 0.

Definition rename_table (from to : list byte) : io Z :=
  ret HA_ERR_WRONG_COMMAND.

(** [THDVAR_SET] on the two session variables, and [THDVAR]. *)
Definition THDVAR_SET_last_create (s : list byte) : io unit :=
  fun w => (tt, set_last_create s w).
Definition THDVAR_create_count : io Z :=
  fun w => (create_count_thdvar w, w).
Definition THDVAR_SET_create_count (n : Z) : io unit :=
  fun w => (tt, set_create_count n w).

(** [snprintf(buf, size, "Last creation '%s'", name)]: the characters
    that fit before the terminator. *)
Definition snprintf_last_creation (size : nat) (name : list byte) : list byte :=
  firstn (size - 1) (lit "Last creation '" ++ name ++ lit "'").

Definition create (name : list byte) : io Z :=
  let buf := snprintf_last_creation SHOW_VAR_FUNC_BUFF_SIZE name in
  _ <- THDVAR_SET_last_create buf ;;
  n <- THDVAR_create_count ;;
  let count := (n + 1) mod 2 ^ 32 in
  _ <- THDVAR_SET_create_count count ;;
  ret 0.

End Handler.

(** ** Reading a run *)

(** The answer to the last system call when that call was a [recv]:
    its result and the bytes it delivered. *)
Definition reply (w : world) : option (Z * list byte) :=
  match rev (calls w) with
  | EvRecv _ _ r got :: _ => Some (r, got)
  | _ => None
  end.

Definition is_close (e : event) : bool :=
  match e with EvClose _ => true | _ => false end.

Definition is_recv (e : event) : bool :=
  match e with EvRecv _ _ _ _ => true | _ => false end.

(** [m] holds the C string [s]: its characters, then the terminator. *)
Definition reads_as (m : memory) (s : list byte) : Prop :=
  load m (S (List.length s)) = s ++ [x00].

(** The first position at which a reply and a token both have a byte
    and the bytes differ, if there is one. *)
Fixpoint mismatch (got tok : list byte) : bool :=
  match got, tok with
  | a :: got', b :: tok' => if Byte.eqb a b then mismatch got' tok' else true
  | _, _ => false
  end.

(** The acknowledgement as it lies in memory: the characters of
    ["success"] and the terminator. *)
Definition success0 : list byte := lit "success" ++ [x00].

(** What [recv] reports is the error value with nothing delivered, or
    the number of the bytes delivered. *)
Definition recv_result (r : Z) (got : list byte) : Prop :=
  (r = -1 /\ got = []) \/ r = Z.of_nat (List.length got).

(** The value both paths compute from the result of [recv] and the
    buffer it wrote to; [ok] is what a match is worth. *)
Definition judged (ok r : Z) (m : memory) : Z :=
  if r <? 1 then -1
  else if strcmp m (lit "success") =? 0 then ok else -1.

(** Between [w] and [w'] nothing was closed and the handler's member
    and the session variables kept their values. *)
Definition undisturbed (w w' : world) : Prop :=
  filter is_close (calls w') = filter is_close (calls w) /\
  client_sockfd w' = client_sockfd w /\
  last_create_thdvar w' = last_create_thdvar w /\
  create_count_thdvar w' = create_count_thdvar w.

(** The parts of a run of [write_row] and of [rnd_next]: the code
    returned, the buffer handed back, the world left behind. *)
Definition insert_code (K : kernel) (n : nat) (row stack : memory) (w : world) : Z :=
  fst (write_row K n row stack w).
Definition insert_world (K : kernel) (n : nat) (row stack : memory) (w : world) : world :=
  snd (write_row K n row stack w).
Definition step_code (E : Z) (K : kernel) (n : nat) (buf : memory) (w : world) : Z :=
  fst (fst (rnd_next E K n buf w)).
Definition step_buf (E : Z) (K : kernel) (n : nat) (buf : memory) (w : world) : memory :=
  snd (fst (rnd_next E K n buf w)).
Definition step_world (E : Z) (K : kernel) (n : nat) (buf : memory) (w : world) : world :=
  snd (rnd_next E K n buf w).

(** A row of eight bytes, as a table with an 8-byte record has them. *)
Definition row8 : list byte := [x01; x02; x03; x04; x05; x06; x07; x08].

(** A kernel with a scripted peer: [socket] and [connect] always answer
    [sock] and [conn], every [send] takes all its bytes, and the n-th
    [recv] of the process gets the n-th of [answers]. *)
Definition peer (sock : option nat) (conn : bool)
    (answers : list recv_answer) : kernel :=
  {| k_socket := fun _ => sock;
     k_connect := fun _ _ => conn;
     k_send := fun _ _ data => Some (List.length data);
     k_recv := fun evs _ _ =>
       nth (List.length (filter is_recv evs)) answers RecvError |}.

(** The same kernel with every [send] failing. *)
Definition send_failing (K : kernel) : kernel :=
  {| k_socket := k_socket K; k_connect := k_connect K;
     k_send := fun _ _ _ => None; k_recv := k_recv K |}.

(** A process with no descriptor open and no scan begun. *)
Definition idle : world :=
  {| open_fds := []; calls := []; client_sockfd := -1;
     last_create_thdvar := None; create_count_thdvar := 0 |}.

(** A process whose handler holds descriptor 3, connected. *)
Definition scanning : world :=
  {| open_fds := [3]; calls := [EvSocket 3; EvConnect 3 "10.0.5.101" 8188 0];
     client_sockfd := 3;
     last_create_thdvar := None; create_count_thdvar := 0 |}.

(** ** Sequences of calls *)

(** [k] scan steps one after the other into the same record buffer:
    the codes returned, in order, and the buffer at the end. *)
Fixpoint scan_steps (E : Z) (K : kernel) (n : nat) (k : nat) (buf : memory)
    : io (list Z * memory) :=
  match k with
  | O => ret ([], buf)
  | S k' =>
      ' (rc, buf1) <- rnd_next E K n buf ;;
      ' (rcs, buf2) <- scan_steps E K n k' buf1 ;;
      ret (rc :: rcs, buf2)
  end.

(** One [write_row] after the other, each for a row paired with what
    the stack holds when it is called; the codes in order. *)
Fixpoint insert_rows (K : kernel) (n : nat) (rows : list (memory * memory))
    : io (list Z) :=
  match rows with
  | [] => ret []
  | (row, stack) :: rows' =>
      rc <- write_row K n row stack ;;
      rcs <- insert_rows K n rows' ;;
      ret (rc :: rcs)
  end.

(** One [create] for each of [names]; the codes in order. *)
Fixpoint create_all (size : nat) (names : list (list byte)) : io (list Z) :=
  match names with
  | [] => ret []
  | name :: names' =>
      rc <- create size name ;;
      rcs <- create_all size names' ;;
      ret (rc :: rcs)
  end.

(** ** The share of a table and the handler's lock *)

(** How a call ends: it returns a value, or it is left by the exception
    [std::bad_alloc] of a failed [new]. *)
Inductive outcome (A : Type) : Type :=
| Returns (a : A)
| Throws.
Arguments Returns {A} a.
Arguments Throws {A}.

(** Calls into the host made by [get_share] and [open];
    [NewExampleShare None] is a [new] that threw. *)
Inductive share_call : Type :=
| LockSharedHaData
| UnlockSharedHaData
| NewExampleShare (p : option Z)
| SetHaSharePtr (p : Z)
| ThrLockDataInit (share_lock : Z).

(** What the table share of the host holds for the engine: the pointer
    [get_ha_share_ptr] returns, 0 for NULL, and the calls made. *)
Record table_share : Type := {
  ha_share_ptr : Z;
  share_calls  : list share_call
}.

Definition note_call (c : share_call) (t : table_share) : table_share :=
  {| ha_share_ptr := ha_share_ptr t; share_calls := share_calls t ++ [c] |}.

Definition set_ha_share_ptr (p : Z) (t : table_share) : table_share :=
  note_call (SetHaSharePtr p) {| ha_share_ptr := p; share_calls := share_calls t |}.

(** [get_share()]; [fresh] is what [new Example_share] does when it is
    reached: it gives the address of the new object, or throws
    ([None]).  The exception passes through [get_share], which has no
    handler, so that nothing after the [new] is run. *)
Definition get_share (fresh : option Z) (t : table_share)
    : outcome Z * table_share :=
  let t1 := note_call LockSharedHaData t in
  if ha_share_ptr t1 =? 0 then
    match fresh with
    | None => (Throws, note_call (NewExampleShare None) t1)
    | Some tmp_share =>
        let t2 := note_call (NewExampleShare (Some tmp_share)) t1 in
        if tmp_share =? 0
        then (Returns tmp_share, note_call UnlockSharedHaData t2)
        else (Returns tmp_share,
              note_call UnlockSharedHaData (set_ha_share_ptr tmp_share t2))
    end
  else (Returns (ha_share_ptr t1), note_call UnlockSharedHaData t1).

(** [open(name, mode, test_if_locked, table_def)]: the code returned
    and the handler's [share] member. *)
Definition open (fresh : option Z) (t : table_share)
    : outcome (Z * Z) * table_share :=
  match get_share fresh t with
  | (Throws, t1) => (Throws, t1)
  | (Returns share, t1) =>
      if share =? 0 then (Returns (1, share), t1)
      else (Returns (0, share), note_call (ThrLockDataInit share) t1)
  end.

Definition is_new_call (c : share_call) : bool :=
  match c with NewExampleShare _ => true | _ => false end.

(** The handler's [THR_LOCK_DATA lock]: its address and its [type]. *)
Record THR_LOCK_DATA : Type := { lock_addr : Z; type : Z }.

Section StoreLock.

(** The two values of [enum thr_lock_type] the handler names. *)
Variables TL_IGNORE TL_UNLOCK : Z.

(** [store_lock(thd, to, lock_type)]; [to] is the array filled so far,
    the result the lock and the array after [*to++ = &lock]. *)
Definition store_lock (lock : THR_LOCK_DATA) (to : list Z) (lock_type : Z)
    : THR_LOCK_DATA * list Z :=
  let lock' :=
    if negb (lock_type =? TL_IGNORE) && (type lock =? TL_UNLOCK)
    then {| lock_addr := lock_addr lock; type := lock_type |}
    else lock in
  (lock', to ++ [lock_addr lock']).

(** [store_lock] for each of the requests in turn. *)
Fixpoint store_locks (lock : THR_LOCK_DATA) (to : list Z) (requests : list Z)
    : THR_LOCK_DATA * list Z :=
  match requests with
  | [] => (lock, to)
  | lock_type :: requests' =>
      let (lock', to') := store_lock lock to lock_type in
      store_locks lock' to' requests'
  end.

(** A request that asks for a lock: neither [TL_IGNORE] nor [TL_UNLOCK]. *)
Definition asks_lock (lock_type : Z) : bool :=
  negb (lock_type =? TL_IGNORE) && negb (lock_type =? TL_UNLOCK).

End StoreLock.

(** ** The pushed condition *)

Inductive Item_type : Type :=
| FIELD_ITEM | FUNC_ITEM | SUM_FUNC_ITEM | STRING_ITEM | INT_ITEM | REAL_ITEM
| NULL_ITEM | VARBIN_ITEM | COPY_STR_ITEM | FIELD_AVG_ITEM | DEFAULT_VALUE_ITEM
| PROC_ITEM | COND_ITEM | REF_ITEM | FIELD_STD_ITEM | FIELD_VARIANCE_ITEM
| INSERT_VALUE_ITEM | SUBSELECT_ITEM | ROW_ITEM | CACHE_ITEM | TYPE_HOLDER
| PARAM_ITEM | TRIGGER_FIELD_ITEM | DECIMAL_ITEM | XPATH_NODESET
| XPATH_NODESET_CMP | VIEW_FIXER_ITEM
| OTHER_ITEM (t : Z).

(** An [Item] as [cond_push] looks at it: its [type()] and, for a
    function or a condition, its [functype()]. *)
Record Item : Type := { item_type : Item_type; functype : Z }.

Definition strFuncType : list string :=
  [ "UNKNOWN_FUNC";
    "EQ_FUNC"; "EQUAL_FUNC"; "NE_FUNC"; "LT_FUNC";
    "LE_FUNC"; "GE_FUNC"; "GT_FUNC"; "FT_FUNC";
    "LIKE_FUNC"; "ISNULL_FUNC"; "ISNOTNULL_FUNC"; "COND_AND_FUNC";
    "COND_OR_FUNC"; "COND_XOR_FUNC"; "BETWEEN"; "IN_FUNC";
    "MULT_EQUAL_FUNC"; "INTERVAL_FUNC"; "ISNOTNULLTEST_FUNC"; "SP_EQUALS_FUNC";
    "SP_DISJOINT_FUNC"; "SP_INTERSECTS_FUNC"; "SP_TOUCHES_FUNC"; "SP_CROSSES_FUNC";
    "SP_WITHIN_FUNC"; "SP_CONTAINS_FUNC"; "SP_OVERLAPS_FUNC"; "SP_STARTPOINT";
    "SP_ENDPOINT"; "SP_EXTERIORRING"; "SP_POINTN"; "SP_GEOMETRYN";
    "SP_INTERIORRINGN"; "NOT_FUNC"; "NOT_ALL_FUNC"; "NOW_FUNC";
    "TRIG_COND_FUNC"; "SUSERVAR_FUNC"; "GUSERVAR_FUNC"; "COLLATE_FUNC";
    "EXTRACT_FUNC"; "CHAR_TYPECAST_FUNC"; "FUNC_SP"; "UDF_FUNC";
    "NEG_FUNC"; "GSYSVAR_FUNC" ]%string.

(** [display_functype(type)]: what goes to [stderr]; [None] when
    [strFuncType[type]] lies outside the array. *)
Definition display_functype (t : Z) : option string :=
  if t <? 0 then None
  else match nth_error strFuncType (Z.to_nat t) with
       | Some name =>
           Some ("type=[" ++ name ++ "]" ++ String (Ascii.ascii_of_nat 9) "")%string
       | None => None
       end.

(** What the body of the loop of [cond_push] sends to [stderr] for one
    item. *)
Definition cond_push_item (tempCond : Item) : option (list string) :=
  match item_type tempCond with
  | FUNC_ITEM | COND_ITEM =>
      match display_functype (functype tempCond) with
      | Some line => Some [line]
      | None => None
      end
  | _ => Some []
  end.

(** The loop [while (tempCond->next_free != NULL)]: [next_free] is the
    chain behind [tempCond].  The result is what went to [stderr] and
    the final [level]; [None] when [display_functype] left its array. *)
Fixpoint cond_push_loop (tempCond : Item) (next_free : list Item) (level : Z)
    : option (list string * Z) :=
  match next_free with
  | [] => Some ([], level)
  | nxt :: rest =>
      match cond_push_item tempCond with
      | None => None
      | Some out =>
          match cond_push_loop nxt rest (level + 1) with
          | None => None
          | Some (out', level') => Some (out ++ out', level')
          end
      end
  end.

(** [cond_push(cond, other_tbls_ok)]; a condition is the chain of its
    items along [next_free], the empty chain being NULL.  The result is
    the pointer returned and the output on [stderr]. *)
Definition cond_push (cond : list Item) (other_tbls_ok : bool)
    : option (list Item * list string) :=
  match cond with
  | [] => Some ([], [])
  | tempCond :: next_free =>
      match cond_push_loop tempCond next_free 0 with
      | None => None
      | Some (out, _) => Some (cond, out)
      end
  end.

(** A table of system tables as the loop of
    [keti_is_supported_system_table] reads it: does an entry before the
    first one with a null [db] carry this [db] pointer and this name? *)
Fixpoint listed (systab : list st_handler_tablename) (db_name table_name : c_str)
    : bool :=
  match systab with
  | [] => false
  | e :: systab' =>
      if c_addr (db e) =? 0 then false
      else ((c_addr (db e) =? c_addr db_name)
            && if list_eq_dec Byte.byte_eq_dec (c_chars (tablename e))
                                               (c_chars table_name)
               then true else false)
           || listed systab' db_name table_name
  end.

(** One more kernel for examples: [socket] gives descriptor 3, then 4,
    then 5, ... as the process has called it so often; [connect] and
    [send] succeed; every [recv] gets [answer]. *)
Definition is_socket (e : event) : bool :=
  match e with EvSocket _ => true | _ => false end.

Definition counting (answer : recv_answer) : kernel :=
  {| k_socket := fun evs => Some (3 + List.length (filter is_socket evs))%nat;
     k_connect := fun _ _ => true;
     k_send := fun _ _ data => Some (List.length data);
     k_recv := fun _ _ _ => answer |}.

(** ** Facts about C strings and memory *)

Lemma uchar_inj (a b : byte) : uchar a = uchar b -> a = b.
Proof.
  unfold uchar. intros H. apply N2Z.inj in H.
  pose proof (Byte.of_to_N a) as Ha. pose proof (Byte.of_to_N b) as Hb.
  rewrite H in Ha. congruence.
Qed.

Lemma byte_eqb_eq (a b : byte) : Byte.eqb a b = true <-> a = b.
Proof. split; [apply Byte.byte_dec_bl | apply Byte.byte_dec_lb]. Qed.

Lemma byte_eqb_neq (a b : byte) : Byte.eqb a b = false <-> a <> b.
Proof.
  split.
  - apply Byte.eqb_false.
  - intros H. destruct (Byte.eqb a b) eqn:E; [|reflexivity].
    apply byte_eqb_eq in E. contradiction.
Qed.

Lemma strcmp_from_zero_iff (m : memory) (s2 : list byte) :
  Forall (fun c => c <> x00) s2 ->
  forall i, strcmp_from m i s2 = 0 <->
            map m (seq i (S (List.length s2))) = s2 ++ [x00].
Proof.
  induction 1 as [|c s2 Hc _ IH]; intros i; simpl.
  - split; intros H.
    + f_equal. apply uchar_inj. lia.
    + injection H as ->. lia.
  - destruct (Byte.eqb (m i) c) eqn:E.
    + apply byte_eqb_eq in E. apply byte_eqb_neq in Hc. rewrite Hc.
      rewrite (IH (S i)). simpl. rewrite E.
      split; intros H; [now f_equal | now injection H].
    + apply byte_eqb_neq in E. split; intros H.
      * exfalso. apply E, uchar_inj. lia.
      * injection H as H _. contradiction.
Qed.

Lemma strcmp_success (m : memory) :
  strcmp m (lit "success") = 0 <-> reads_as m (lit "success").
Proof.
  unfold strcmp, reads_as, load. apply strcmp_from_zero_iff.
  repeat constructor; discriminate.
Qed.

Lemma load_store_cons (a : byte) (g : list byte) (m : memory) (n : nat) :
  load (store (a :: g) m) (S n) = a :: load (store g (fun i => m (S i))) n.
Proof.
  unfold load. simpl. f_equal.
  rewrite <- seq_shift, map_map. apply map_ext. intros i. reflexivity.
Qed.

(** A reply that brings the whole token puts it in memory, whatever
    was there and whatever follows in the reply. *)
Lemma load_store_prefix (tok got : list byte) (m : memory) :
  firstn (List.length tok) got = tok ->
  load (store got m) (List.length tok) = tok.
Proof.
  revert got m. induction tok as [|b tok IH]; intros got m H.
  - reflexivity.
  - destruct got as [|a got]; [discriminate|].
    simpl in H. injection H as -> H.
    change (List.length (b :: tok)) with (S (List.length tok)).
    rewrite load_store_cons. f_equal. now apply IH.
Qed.

(** A reply that differs from the token at a byte it brings leaves
    something else than the token in memory. *)
Lemma load_store_mismatch (tok got : list byte) (m : memory) :
  mismatch got tok = true ->
  load (store got m) (List.length tok) <> tok.
Proof.
  revert got m. induction tok as [|b tok IH]; intros got m H.
  - destruct got; discriminate.
  - destruct got as [|a got]; [discriminate|].
    simpl in H.
    change (List.length (b :: tok)) with (S (List.length tok)).
    rewrite load_store_cons. intros Heq. injection Heq as Hab Hrest.
    destruct (Byte.eqb a b) eqn:E.
    + now apply (IH got (fun i => m (S i))).
    + apply byte_eqb_neq in E. contradiction.
Qed.

Lemma load_store_full (got : list byte) (m : memory) :
  load (store got m) (List.length got) = got.
Proof. apply load_store_prefix, firstn_all. Qed.

(** ** Runs of the write path and of the scan step *)

Lemma reply_log_call (e : event) (w : world) :
  reply (log_call e w) =
  match e with EvRecv _ _ r got => Some (r, got) | _ => None end.
Proof.
  unfold reply, log_call. simpl. rewrite rev_app_distr. reflexivity.
Qed.

Section SyscallFacts.

Variable K : kernel.

Lemma sys_socket_reply (w : world) : reply (snd (sys_socket K w)) = None.
Proof.
  unfold sys_socket. destruct (k_socket K (calls w)); cbn [snd];
    apply reply_log_call.
Qed.

Lemma sys_connect_reply (fd : Z) (a : string) (p : Z) (w : world) :
  reply (snd (sys_connect K fd a p w)) = None.
Proof. unfold sys_connect. cbn [snd]. apply reply_log_call. Qed.

Lemma sys_recv_spec (fd : Z) (p : memory) (n : nat) (w : world) :
  let run := sys_recv K fd p n w in
  let r := fst (fst run) in
  exists got,
    reply (snd run) = Some (r, got) /\
    recv_result r got /\
    (List.length got <= n)%nat /\
    (forall i, snd (fst run) i = store got p i) /\
    (r < 1 \/ snd (fst run) = store got p).
Proof.
  unfold sys_recv. destruct (k_recv K (calls w) fd n) as [|data]; cbn [fst snd].
  - exists []. rewrite reply_log_call. repeat split.
    + left; split; reflexivity.
    + simpl; lia.
    + intros [|i]; reflexivity.
    + left; lia.
  - exists (firstn n data). rewrite reply_log_call. repeat split.
    + right; reflexivity.
    + rewrite length_firstn; lia.
    + right; reflexivity.
Qed.

End SyscallFacts.

Lemma judged_below (ok r : Z) (m : memory) : r < 1 -> judged ok r m = -1.
Proof.
  intros H. unfold judged. destruct (Z.ltb_spec r 1); [reflexivity | lia].
Qed.

Lemma write_row_run (K : kernel) (n : nat) (buf stack : memory) (w : world) :
  let run := write_row K n buf stack w in
  match reply (snd run) with
  | None => fst run = -1
  | Some (r, got) =>
      recv_result r got /\ fst run = judged 0 r (store got stack)
  end.
Proof.
  unfold write_row, bind. cbv zeta.
  pose proof (sys_socket_reply K w) as Hs.
  destruct (sys_socket K w) as [fd w1]. cbn [snd] in Hs.
  destruct (fd =? -1).
  { unfold ret; cbn [fst snd]. rewrite Hs. reflexivity. }
  pose proof (sys_connect_reply K fd "10.0.5.101" 8188 w1) as Hc.
  destruct (sys_connect K fd "10.0.5.101" 8188 w1) as [r w2]. cbn [snd] in Hc.
  destruct (r =? -1).
  { unfold ret; cbn [fst snd]. rewrite Hc. reflexivity. }
  destruct (sys_send K fd (of_list (lit "w") x00) 1 w2) as [l1 w3].
  destruct (sys_send K fd buf n w3) as [l2 w4].
  destruct (sys_recv_spec K fd stack 20 w4) as (got & Hr & Hres & _ & _ & Hm).
  destruct (sys_recv K fd stack 20 w4) as [[readlen recvbuf] w5].
  cbn [fst snd] in Hr, Hres, Hm.
  assert (Hj : (if readlen <? 1 then -1
                else if negb (strcmp recvbuf (lit "success") =? 0) then -1 else 0)
               = judged 0 readlen (store got stack)).
  { destruct Hm as [Hm | ->].
    - rewrite judged_below by exact Hm.
      destruct (Z.ltb_spec readlen 1); [reflexivity | lia].
    - unfold judged.
      destruct (readlen <? 1); [reflexivity|].
      destruct (strcmp (store got stack) (lit "success") =? 0); reflexivity. }
  destruct (readlen <? 1) eqn:Hlen.
  { unfold ret; cbn [fst snd]. rewrite Hr. split; [exact Hres | exact Hj]. }
  destruct (negb (strcmp recvbuf (lit "success") =? 0));
    unfold ret; cbn [fst snd]; rewrite Hr; (split; [exact Hres | exact Hj]).
Qed.

Lemma to_int_small (z : Z) : - 2 ^ 31 <= z < 2 ^ 31 -> to_int z = z.
Proof. intros H. unfold to_int. rewrite Z.mod_small; lia. Qed.

Lemma rnd_next_run (E : Z) (K : kernel) (n : nat) (buf : memory) (w : world) :
  let run := rnd_next E K n buf w in
  exists r got,
    reply (snd run) = Some (r, got) /\
    recv_result r got /\
    (List.length got <= n)%nat /\
    (forall i, snd (fst run) i = store got buf i) /\
    fst (fst run) = judged E (to_int r) (store got buf).
Proof.
  unfold rnd_next, bind, get_client_sockfd. cbv zeta.
  set (fd := client_sockfd w).
  destruct (sys_send K fd (of_list (lit "r") x00) 1 w) as [l1 w1].
  destruct (sys_recv_spec K fd buf n w1) as (got & Hr & Hres & Hn & Hb & Hm).
  destruct (sys_recv K fd buf n w1) as [[received buf'] w2].
  cbn [fst snd] in Hr, Hres, Hb, Hm.
  exists received, got.
  assert (Hj : (if to_int received <? 1 then -1
                else if negb (strcmp buf' (lit "success") =? 0) then -1 else E)
               = judged E (to_int received) (store got buf)).
  { destruct Hm as [Hm | ->].
    - assert (Hsmall : to_int received = received).
      { apply to_int_small. destruct Hres as [[-> _] | ->]; lia. }
      rewrite Hsmall. rewrite judged_below by exact Hm.
      destruct (Z.ltb_spec received 1); [reflexivity | lia].
    - unfold judged.
      destruct (to_int received <? 1); [reflexivity|].
      destruct (strcmp (store got buf) (lit "success") =? 0); reflexivity. }
  destruct (to_int received <? 1) eqn:Hlen.
  { unfold ret; cbn [fst snd]. repeat split; assumption. }
  destruct (negb (strcmp buf' (lit "success") =? 0));
    unfold ret; cbn [fst snd]; repeat split; assumption.
Qed.

(** ** Descriptors across the system calls *)

Lemma undisturbed_refl (w : world) : undisturbed w w.
Proof. repeat split. Qed.

Lemma undisturbed_trans (w1 w2 w3 : world) :
  undisturbed w1 w2 -> undisturbed w2 w3 -> undisturbed w1 w3.
Proof.
  intros (A1 & B1 & C1 & D1) (A2 & B2 & C2 & D2).
  repeat split; congruence.
Qed.

Lemma log_call_undisturbed (e : event) (w : world) :
  is_close e = false -> undisturbed w (log_call e w).
Proof.
  intros H. repeat split. unfold log_call; cbn [calls].
  rewrite filter_app. cbn [filter]. rewrite H. apply app_nil_r.
Qed.

Section SyscallFrames.

Variable K : kernel.

Lemma sys_socket_frame (w : world) :
  let run := sys_socket K w in
  undisturbed w (snd run) /\
  match k_socket K (calls w) with
  | Some fd => fst run = Z.of_nat fd /\ open_fds (snd run) = Z.of_nat fd :: open_fds w
  | None => fst run = -1 /\ open_fds (snd run) = open_fds w
  end.
Proof.
  unfold sys_socket. destruct (k_socket K (calls w)) as [fd|]; cbn [fst snd].
  - split; [|split; reflexivity].
    apply undisturbed_trans with (set_open (Z.of_nat fd :: open_fds w) w).
    + repeat split.
    + now apply log_call_undisturbed.
  - split; [|split; reflexivity]. now apply log_call_undisturbed.
Qed.

Lemma sys_connect_frame (fd : Z) (a : string) (p : Z) (w : world) :
  let run := sys_connect K fd a p w in
  undisturbed w (snd run) /\ open_fds (snd run) = open_fds w.
Proof.
  unfold sys_connect. cbn [snd]. split; [|reflexivity].
  now apply log_call_undisturbed.
Qed.

Lemma sys_send_frame (fd : Z) (p : memory) (n : nat) (w : world) :
  let run := sys_send K fd p n w in
  undisturbed w (snd run) /\ open_fds (snd run) = open_fds w.
Proof.
  unfold sys_send. cbn [snd]. split; [|reflexivity].
  now apply log_call_undisturbed.
Qed.

Lemma sys_recv_frame (fd : Z) (p : memory) (n : nat) (w : world) :
  let run := sys_recv K fd p n w in
  undisturbed w (snd run) /\ open_fds (snd run) = open_fds w.
Proof.
  unfold sys_recv. destruct (k_recv K (calls w) fd n); cbn [snd];
    (split; [now apply log_call_undisturbed | reflexivity]).
Qed.

End SyscallFrames.

Lemma write_row_frame (K : kernel) (n : nat) (buf stack : memory) (w : world) :
  let w' := snd (write_row K n buf stack w) in
  undisturbed w w' /\
  match k_socket K (calls w) with
  | Some fd => open_fds w' = Z.of_nat fd :: open_fds w
  | None => open_fds w' = open_fds w
  end.
Proof.
  unfold write_row, bind. cbv zeta.
  destruct (sys_socket_frame K w) as [U1 O1].
  destruct (sys_socket K w) as [fd w1]. cbn [fst snd] in U1, O1.
  assert (O1' : match k_socket K (calls w) with
                | Some fd0 => open_fds w1 = Z.of_nat fd0 :: open_fds w
                | None => open_fds w1 = open_fds w
                end) by (destruct (k_socket K (calls w)); apply O1).
  clear O1.
  destruct (fd =? -1).
  { unfold ret; cbn [snd]. split; assumption. }
  destruct (sys_connect_frame K fd "10.0.5.101" 8188 w1) as [U2 O2].
  destruct (sys_connect K fd "10.0.5.101" 8188 w1) as [r w2]. cbn [snd] in U2, O2.
  assert (O12 : match k_socket K (calls w) with
                | Some fd0 => open_fds w2 = Z.of_nat fd0 :: open_fds w
                | None => open_fds w2 = open_fds w
                end) by (rewrite O2; exact O1').
  pose proof (undisturbed_trans _ _ _ U1 U2) as U12.
  destruct (r =? -1).
  { unfold ret; cbn [snd]. split; assumption. }
  destruct (sys_send_frame K fd (of_list (lit "w") x00) 1 w2) as [U3 O3].
  destruct (sys_send K fd (of_list (lit "w") x00) 1 w2) as [l1 w3].
  cbn [snd] in U3, O3.
  destruct (sys_send_frame K fd buf n w3) as [U4 O4].
  destruct (sys_send K fd buf n w3) as [l2 w4]. cbn [snd] in U4, O4.
  destruct (sys_recv_frame K fd stack 20 w4) as [U5 O5].
  destruct (sys_recv K fd stack 20 w4) as [[readlen recvbuf] w5].
  cbn [snd] in U5, O5.
  assert (U : undisturbed w w5)
    by (eauto using undisturbed_trans).
  assert (O : match k_socket K (calls w) with
              | Some fd0 => open_fds w5 = Z.of_nat fd0 :: open_fds w
              | None => open_fds w5 = open_fds w
              end) by (rewrite O5, O4, O3; exact O12).
  destruct (readlen <? 1); [unfold ret; cbn [snd]; split; assumption|].
  destruct (negb (strcmp recvbuf (lit "success") =? 0));
    unfold ret; cbn [snd]; split; assumption.
Qed.

Lemma rnd_next_frame (E : Z) (K : kernel) (n : nat) (buf : memory) (w : world) :
  let w' := snd (rnd_next E K n buf w) in
  undisturbed w w' /\ open_fds w' = open_fds w.
Proof.
  unfold rnd_next, bind, get_client_sockfd. cbv zeta.
  set (fd := client_sockfd w).
  destruct (sys_send_frame K fd (of_list (lit "r") x00) 1 w) as [U1 O1].
  destruct (sys_send K fd (of_list (lit "r") x00) 1 w) as [l1 w1].
  cbn [snd] in U1, O1.
  destruct (sys_recv_frame K fd buf n w1) as [U2 O2].
  destruct (sys_recv K fd buf n w1) as [[readlen buf'] w2].
  cbn [snd] in U2, O2.
  assert (U : undisturbed w w2) by (eauto using undisturbed_trans).
  assert (O : open_fds w2 = open_fds w) by congruence.
  destruct (to_int readlen <? 1); [unfold ret; cbn [snd]; split; assumption|].
  destruct (negb (strcmp buf' (lit "success") =? 0));
    unfold ret; cbn [snd]; split; assumption.
Qed.

(** A scan that [rnd_init] has begun holds its descriptor, open. *)
Lemma rnd_init_ok (K : kernel) (scan : bool) (w : world) :
  let run := rnd_init K scan w in
  fst run = 0 ->
  In (client_sockfd (snd run)) (open_fds (snd run)) /\
  client_sockfd (snd run) <> -1 /\
  filter is_close (calls (snd run)) = filter is_close (calls w).
Proof.
  unfold rnd_init, bind, put_client_sockfd. cbv zeta.
  destruct (sys_socket_frame K w) as [(C1 & _) O1].
  destruct (sys_socket K w) as [fd w1]. cbn [fst snd] in C1, O1.
  destruct (Z.eqb_spec fd (-1)) as [|Hfd].
  { unfold ret; cbn [fst]. discriminate. }
  assert (Hin : In fd (open_fds w1)).
  { destruct (k_socket K (calls w)) as [fd0|]; destruct O1 as [-> ->];
      [left; reflexivity | contradiction]. }
  destruct (sys_connect_frame K fd "10.0.5.101" 8188 (set_client_sockfd fd w1))
    as [(C2 & S2 & _) O2].
  destruct (sys_connect K fd "10.0.5.101" 8188 (set_client_sockfd fd w1))
    as [r w2].
  cbn [snd] in C2, S2, O2. cbn [set_client_sockfd calls client_sockfd open_fds] in *.
  destruct (r =? -1); unfold ret; cbn [fst snd]; [discriminate|].
  intros _. rewrite S2, O2, C2, C1. repeat split; assumption.
Qed.

(** ** The verdict on a reply *)

Lemma judged_cases (ok r : Z) (m : memory) :
  judged ok r m = -1 \/ judged ok r m = ok.
Proof.
  unfold judged. destruct (r <? 1); [now left|].
  destruct (strcmp m (lit "success") =? 0); [now right | now left].
Qed.

Lemma judged_match (ok r : Z) (m : memory) :
  1 <= r -> reads_as m (lit "success") -> judged ok r m = ok.
Proof.
  intros Hr Hm. unfold judged.
  destruct (Z.ltb_spec r 1); [lia|].
  apply strcmp_success in Hm. rewrite Hm. reflexivity.
Qed.

Lemma judged_other (ok r : Z) (m : memory) :
  ~ reads_as m (lit "success") -> judged ok r m = -1.
Proof.
  intros Hm. unfold judged. destruct (r <? 1); [reflexivity|].
  destruct (Z.eqb_spec (strcmp m (lit "success")) 0) as [H|]; [|reflexivity].
  apply strcmp_success in H. contradiction.
Qed.

Lemma judged_ok_iff (ok r : Z) (m : memory) :
  ok <> -1 ->
  (judged ok r m = ok <-> 1 <= r /\ reads_as m (lit "success")).
Proof.
  intros Hok. split.
  - unfold judged. destruct (Z.ltb_spec r 1) as [|Hr]; [congruence|].
    destruct (Z.eqb_spec (strcmp m (lit "success")) 0) as [Hs|]; [|congruence].
    intros _. split; [lia | now apply strcmp_success].
  - intros [Hr Hm]. now apply judged_match.
Qed.

Lemma reads_as_prefix (got : list byte) (m : memory) :
  firstn 8 got = success0 -> reads_as (store got m) (lit "success").
Proof. intros H. unfold reads_as. now apply (load_store_prefix success0). Qed.

Lemma reads_as_mismatch (got : list byte) (m : memory) :
  mismatch got success0 = true -> ~ reads_as (store got m) (lit "success").
Proof. intros H. unfold reads_as. now apply (load_store_mismatch success0). Qed.

Lemma load_ext (m m' : memory) (n : nat) :
  (forall i, m i = m' i) -> load m n = load m' n.
Proof. intros H. unfold load. apply map_ext. intros i. apply H. Qed.

(** A reply that brings the whole token has at least one byte. *)
Lemma recv_result_prefix (r : Z) (got : list byte) :
  recv_result r got -> firstn 8 got = success0 -> 1 <= r.
Proof.
  intros [[_ ->] | ->] H; [discriminate|].
  apply (f_equal (@List.length byte)) in H. rewrite length_firstn in H.
  change (List.length success0) with 8%nat in H. lia.
Qed.

(** [write_row] gives up when [socket] or [connect] fails. *)
Lemma write_row_transport (K : kernel) (n : nat) (row stack : memory) (w : world) :
  (k_socket K (calls w) = None -> fst (write_row K n row stack w) = -1) /\
  (forall fd, k_socket K (calls w) = Some fd ->
     k_connect K (calls w ++ [EvSocket (Z.of_nat fd)]) (Z.of_nat fd) = false ->
     fst (write_row K n row stack w) = -1).
Proof.
  split.
  - intros Hs. unfold write_row, bind, sys_socket. rewrite Hs. reflexivity.
  - intros fd Hs Hc. unfold write_row, bind, sys_socket. rewrite Hs.
    destruct (Z.eqb_spec (Z.of_nat fd) (-1)) as [|_]; [lia|].
    unfold sys_connect. cbn [calls log_call set_open]. rewrite Hc. reflexivity.
Qed.

(** ** The scan step *)

(** C8.  Whatever the peer answers to a scan step, [rnd_next] returns
    the failure value -1 or [HA_ERR_END_OF_FILE]; as the latter is not
    the success code 0, no reply makes it return "row available", and
    no scan hands a row to the host. *)
Theorem rnd_next_never_row (E : Z) (K : kernel) (n : nat) (buf : memory)
    (w : world) :
  E <> 0 ->
  (step_code E K n buf w = -1 \/ step_code E K n buf w = E) /\
  step_code E K n buf w <> 0.
Proof.
  intros HE. unfold step_code.
  destruct (rnd_next_run E K n buf w) as (r & got & _ & _ & _ & _ & ->).
  destruct (judged_cases E (to_int r) (store got buf)) as [-> | ->].
  - split; [now left | lia].
  - split; [now right | exact HE].
Qed.

Lemma rnd_next_never_row_witness :
  137 <> 0 /\
  (step_code 137 (peer (Some 3%nat) true [RecvBytes row8]) 8
     (of_list [] x00) scanning = -1 \/
   step_code 137 (peer (Some 3%nat) true [RecvBytes row8]) 8
     (of_list [] x00) scanning = 137) /\
  step_code 137 (peer (Some 3%nat) true [RecvBytes row8]) 8
     (of_list [] x00) scanning <> 0.
Proof.
  split; [lia|].
  apply (rnd_next_never_row 137 (peer (Some 3%nat) true [RecvBytes row8]) 8
           (of_list [] x00) scanning).
  lia.
Defined.

(** C1 (what the code does with a Data Reply).  When a scan step
    receives the [reclength] bytes of a row, [rnd_next] does copy them
    into the host's buffer, but the code it returns is never the host's
    "row available" 0: it is -1 as soon as the row differs from
    ["success"] followed by NUL at one of its bytes. *)
Theorem rnd_next_data_reply (E : Z) (K : kernel) (n : nat) (buf : memory)
    (w : world) (row : list byte) :
  E <> 0 ->
  List.length row = n ->
  reply (step_world E K n buf w) = Some (Z.of_nat n, row) ->
  load (step_buf E K n buf w) n = row /\
  step_code E K n buf w <> 0 /\
  (mismatch row success0 = true -> step_code E K n buf w = -1).
Proof.
  intros HE Hlen Hrep. unfold step_world, step_buf, step_code in *.
  destruct (rnd_next_run E K n buf w) as (r & got & Hr & _ & _ & Hb & Hc).
  rewrite Hr in Hrep. injection Hrep as -> ->.
  split; [|split].
  - rewrite (load_ext _ _ n Hb), <- Hlen. apply load_store_full.
  - rewrite Hc.
    destruct (judged_cases E (to_int (Z.of_nat n)) (store row buf)) as [-> | ->];
      [lia | exact HE].
  - intros Hm. rewrite Hc. apply judged_other. now apply reads_as_mismatch.
Qed.

Lemma rnd_next_data_reply_witness :
  137 <> 0 /\
  List.length row8 = 8%nat /\
  reply (step_world 137 (peer (Some 3%nat) true [RecvBytes row8]) 8
           (of_list [] x00) scanning) = Some (8, row8) /\
  load (step_buf 137 (peer (Some 3%nat) true [RecvBytes row8]) 8
          (of_list [] x00) scanning) 8 = row8 /\
  step_code 137 (peer (Some 3%nat) true [RecvBytes row8]) 8
    (of_list [] x00) scanning = -1.
Proof.
  split; [lia|]. split; [reflexivity|]. split; [reflexivity|].
  destruct (rnd_next_data_reply 137 (peer (Some 3%nat) true [RecvBytes row8]) 8
              (of_list [] x00) scanning row8) as (Hb & _ & Hc);
    [lia | reflexivity | reflexivity |].
  split; [exact Hb | apply Hc; reflexivity].
Defined.

(** ** Telling control from data *)




(** ** The write path *)

(** C3 (refuted as stated).  A reply that is not the token byte for byte
    is accepted: ["success"], NUL and one more byte makes [write_row]
    return 0.  The seven bytes of the token alone, received over a
    stack that holds no NUL behind them, make it return -1.  And a
    transport error does not always give an error: with both [send]
    calls failing, the same acknowledgement still gives 0. *)
Lemma write_row_not_byte_for_byte :
  insert_code (peer (Some 3%nat) true [RecvBytes (success0 ++ [x41])]) 8
    (of_list row8 x00) (of_list [] xaa) idle = 0 /\
  success0 ++ [x41] <> lit "success" /\
  success0 ++ [x41] <> success0 /\
  insert_code (peer (Some 3%nat) true [RecvBytes (lit "success")]) 8
    (of_list row8 x00) (of_list [] xaa) idle = -1 /\
  In (EvSend 3 row8 (-1))
     (calls (insert_world
               (send_failing (peer (Some 3%nat) true [RecvBytes success0])) 8
               (of_list row8 x00) (of_list [] xaa) idle)) /\
  insert_code (send_failing (peer (Some 3%nat) true [RecvBytes success0])) 8
    (of_list row8 x00) (of_list [] xaa) idle = 0.
Proof.
  repeat split; try discriminate.
  cbn. right. right. right. left. reflexivity.
Qed.

(** C3 (amended).  [write_row] returns 0 or -1.  It returns 0 whenever
    the reply begins with ["success"] and a NUL, whatever follows and
    whatever the two [send] calls returned, and -1 whenever the reply
    differs from that at one of the bytes received, whenever [recv]
    returns less than one byte, and whenever [socket] or [connect]
    fails, so that no reply is read. *)
Theorem write_row_ack (K : kernel) (n : nat) (row stack : memory) (w : world) :
  (insert_code K n row stack w = 0 \/ insert_code K n row stack w = -1) /\
  (k_socket K (calls w) = None -> insert_code K n row stack w = -1) /\
  (forall fd, k_socket K (calls w) = Some fd ->
     k_connect K (calls w ++ [EvSocket (Z.of_nat fd)]) (Z.of_nat fd) = false ->
     insert_code K n row stack w = -1) /\
  (reply (insert_world K n row stack w) = None ->
   insert_code K n row stack w = -1) /\
  (forall r got,
     reply (insert_world K n row stack w) = Some (r, got) ->
     (r < 1 -> insert_code K n row stack w = -1) /\
     (firstn 8 got = success0 -> insert_code K n row stack w = 0) /\
     (mismatch got success0 = true -> insert_code K n row stack w = -1)).
Proof.
  unfold insert_code, insert_world.
  destruct (write_row_transport K n row stack w) as [Hsock Hconn].
  pose proof (write_row_run K n row stack w) as Hw. cbv zeta in Hw.
  split; [|split; [exact Hsock | split; [exact Hconn|]]].
  - destruct (reply (snd (write_row K n row stack w))) as [[r got]|].
    + destruct Hw as [_ ->]. destruct (judged_cases 0 r (store got stack)); auto.
    + now right.
  - destruct (reply (snd (write_row K n row stack w))) as [[r got]|].
    + destruct Hw as [Hres ->]. split; [discriminate|].
      intros r' got' Heq. injection Heq as <- <-. split; [|split].
      * apply judged_below.
      * intros H. apply judged_match; [|now apply reads_as_prefix].
        now apply (recv_result_prefix r got).
      * intros H. apply judged_other. now apply reads_as_mismatch.
    + split; [auto | discriminate].
Qed.

Lemma write_row_ack_witness :
  reply (insert_world (peer (Some 3%nat) true [RecvBytes success0]) 8
           (of_list row8 x00) (of_list [] xaa) idle) = Some (8, success0) /\
  firstn 8 success0 = success0 /\
  insert_code (peer (Some 3%nat) true [RecvBytes success0]) 8
    (of_list row8 x00) (of_list [] xaa) idle = 0 /\
  k_socket (peer None true []) (calls idle) = None /\
  insert_code (peer None true []) 8 (of_list row8 x00) (of_list [] xaa) idle = -1.
Proof.
  split; [reflexivity|]. split; [reflexivity|].
  destruct (write_row_ack (peer (Some 3%nat) true [RecvBytes success0]) 8
              (of_list row8 x00) (of_list [] xaa) idle) as (_ & _ & _ & _ & H).
  destruct (H 8 success0) as (_ & Hok & _); [reflexivity|].
  split; [apply Hok; reflexivity|]. split; [reflexivity|].
  destruct (write_row_ack (peer None true []) 8
              (of_list row8 x00) (of_list [] xaa) idle) as (_ & Hs & _).
  apply Hs. reflexivity.
Defined.

(** C4 (what the code does).  [write_row] issues no [close] on any
    path: the calls it adds contain none, the handler's member and the
    session variables are as before, and the descriptor [socket] gave,
    when it gave one, is still open when [write_row] returns. *)
Theorem write_row_never_closes (K : kernel) (n : nat) (row stack : memory)
    (w : world) :
  filter is_close (calls (insert_world K n row stack w))
    = filter is_close (calls w) /\
  match k_socket K (calls w) with
  | Some fd => open_fds (insert_world K n row stack w)
                 = Z.of_nat fd :: open_fds w
  | None => open_fds (insert_world K n row stack w) = open_fds w
  end.
Proof.
  unfold insert_world.
  destruct (write_row_frame K n row stack w) as [(Hc & _) Ho].
  split; assumption.
Qed.

Lemma write_row_never_closes_witness :
  insert_code (peer (Some 3%nat) true [RecvBytes success0]) 8
    (of_list row8 x00) (of_list [] xaa) idle = 0 /\
  filter is_close
    (calls (insert_world (peer (Some 3%nat) true [RecvBytes success0]) 8
              (of_list row8 x00) (of_list [] xaa) idle)) = [] /\
  open_fds (insert_world (peer (Some 3%nat) true [RecvBytes success0]) 8
              (of_list row8 x00) (of_list [] xaa) idle) = [3].
Proof.
  split; [reflexivity|].
  exact (write_row_never_closes (peer (Some 3%nat) true [RecvBytes success0]) 8
           (of_list row8 x00) (of_list [] xaa) idle).
Defined.

(** ** Short reads *)




(** ** A scan without rows *)

(** C6 (refuted as stated).  After a successful [rnd_init], a first
    scan step that receives the token ["eof"], with its NUL or without,
    returns the failure value -1, not an end of data. *)
Lemma eof_token_is_failure :
  fst (rnd_init (peer (Some 3%nat) true [RecvBytes (lit "eof")]) true idle) = 0 /\
  step_code 137 (peer (Some 3%nat) true [RecvBytes (lit "eof")]) 8
    (of_list [] x00)
    (snd (rnd_init (peer (Some 3%nat) true [RecvBytes (lit "eof")]) true idle))
    = -1 /\
  step_code 137 (peer (Some 3%nat) true [RecvBytes (lit "eof" ++ [x00])]) 8
    (of_list [] x00)
    (snd (rnd_init (peer (Some 3%nat) true [RecvBytes (lit "eof" ++ [x00])])
            true idle))
    = -1.
Proof. repeat split. Qed.

(** C6 (amended).  The end marker of the source is ["success"], and it
    needs a record of at least eight bytes to arrive whole.  For such a
    table, the record below 2^31 bytes, when the first scan step after
    a successful [rnd_init] receives a reply that begins with
    ["success"] and a NUL, [rnd_next] returns [HA_ERR_END_OF_FILE], the
    end of data and no failure.  The handler records no state of the
    scan: [client_sockfd] is what [rnd_init] set, its descriptor is
    still open, and nothing has been closed. *)
Theorem first_scan_step_end_marker (E : Z) (K : kernel) (n : nat)
    (buf : memory) (w : world) (r : Z) (got : list byte) :
  (8 <= n)%nat ->
  Z.of_nat n < 2 ^ 31 ->
  fst (rnd_init K true w) = 0 ->
  reply (step_world E K n buf (snd (rnd_init K true w))) = Some (r, got) ->
  firstn 8 got = success0 ->
  step_code E K n buf (snd (rnd_init K true w)) = E /\
  client_sockfd (step_world E K n buf (snd (rnd_init K true w)))
    = client_sockfd (snd (rnd_init K true w)) /\
  In (client_sockfd (snd (rnd_init K true w)))
     (open_fds (step_world E K n buf (snd (rnd_init K true w)))) /\
  filter is_close (calls (step_world E K n buf (snd (rnd_init K true w))))
    = filter is_close (calls w).
Proof.
  intros _ Hint Hinit Hrep Hp.
  destruct (rnd_init_ok K true w Hinit) as (Hin & _ & Hcl).
  set (w1 := snd (rnd_init K true w)) in *.
  unfold step_code, step_world in *.
  destruct (rnd_next_frame E K n buf w1) as [(Hc & Hs & _) Ho].
  destruct (rnd_next_run E K n buf w1) as (r' & got' & Hr & Hres & Hlen & _ & ->).
  rewrite Hr in Hrep. injection Hrep as -> ->.
  pose proof (recv_result_prefix r got Hres Hp) as Hone.
  split; [|split; [|split]].
  - rewrite to_int_small by (destruct Hres as [[-> _] | ->]; lia).
    apply judged_match; [exact Hone | now apply reads_as_prefix].
  - exact Hs.
  - now rewrite Ho.
  - now rewrite Hc.
Qed.

Lemma first_scan_step_end_marker_witness :
  (8 <= 8)%nat /\
  Z.of_nat 8 < 2 ^ 31 /\
  fst (rnd_init (peer (Some 3%nat) true [RecvBytes success0]) true idle) = 0 /\
  reply (step_world 137 (peer (Some 3%nat) true [RecvBytes success0]) 8
           (of_list [] xaa)
           (snd (rnd_init (peer (Some 3%nat) true [RecvBytes success0]) true idle)))
    = Some (8, success0) /\
  firstn 8 success0 = success0 /\
  step_code 137 (peer (Some 3%nat) true [RecvBytes success0]) 8 (of_list [] xaa)
    (snd (rnd_init (peer (Some 3%nat) true [RecvBytes success0]) true idle))
    = 137.
Proof.
  split; [lia|]. split; [simpl; lia|].
  split; [reflexivity|]. split; [reflexivity|]. split; [reflexivity|].
  apply (first_scan_step_end_marker 137
           (peer (Some 3%nat) true [RecvBytes success0]) 8 (of_list [] xaa)
           idle 8 success0); [lia | simpl; lia | reflexivity | reflexivity | reflexivity].
Defined.

(** With a record shorter than eight bytes the marker is cut: of
    ["success"] and its NUL a 5-byte record receives ["succe"], and
    over a zeroed buffer the step returns -1. *)
Example end_marker_cut :
  reply (step_world 137 (peer (Some 3%nat) true [RecvBytes success0]) 5
           (of_list [] x00) scanning) = Some (5, lit "succe") /\
  step_code 137 (peer (Some 3%nat) true [RecvBytes success0]) 5
    (of_list [] x00) scanning = -1.
Proof. split; reflexivity. Qed.

(** ** Hooks outside the protocol *)

(** C7 (refuted as stated).  [create] does not answer "not supported":
    it returns 0, and it changes state, counting the creation in
    [create_count_thdvar] and noting the name in [last_create_thdvar]. *)
Lemma create_returns_success :
  fst (create 1024 (lit "t1") idle) = 0 /\
  create_count_thdvar idle = 0 /\
  create_count_thdvar (snd (create 1024 (lit "t1") idle)) = 1 /\
  last_create_thdvar idle = None /\
  last_create_thdvar (snd (create 1024 (lit "t1") idle))
    = Some (lit "Last creation 't1'").
Proof. repeat split. Qed.

(** C7 (amended).  [rnd_pos], the five index operations, [update_row],
    [delete_row], [rename_table] and [delete_all_rows] return
    [HA_ERR_WRONG_COMMAND] and leave the world as it was: no system
    call, no change of state.  [create] makes no system call either and
    leaves descriptors and [client_sockfd] alone, but it returns 0 and
    sets the two session variables; [delete_table] returns 0 and
    changes nothing. *)
Theorem unsupported_hooks (W : Z) (size : nat) (m1 m2 : memory) (z1 z2 : Z)
    (name1 name2 : list byte) (w : world) :
  rnd_pos W m1 m2 w = (W, w) /\
  index_read_map W m1 m2 z1 z2 w = (W, w) /\
  index_next W m1 w = (W, w) /\
  index_prev W m1 w = (W, w) /\
  index_first W m1 w = (W, w) /\
  index_last W m1 w = (W, w) /\
  update_row W m1 m2 w = (W, w) /\
  delete_row W m1 w = (W, w) /\
  rename_table W name1 name2 w = (W, w) /\
  delete_all_rows W w = (W, w) /\
  delete_table name1 w = (0, w) /\
  fst (create size name1 w) = 0 /\
  calls (snd (create size name1 w)) = calls w /\
  open_fds (snd (create size name1 w)) = open_fds w /\
  client_sockfd (snd (create size name1 w)) = client_sockfd w /\
  create_count_thdvar (snd (create size name1 w))
    = (create_count_thdvar w + 1) mod 2 ^ 32 /\
  last_create_thdvar (snd (create size name1 w))
    = Some (snprintf_last_creation size name1).
Proof. repeat split. Qed.

(** ** Estimates and system tables *)

(** C9.  [records_in_range] returns 10 for every index and every pair
    of keys, present or null. *)
Theorem records_in_range_constant (inx : Z) (min_key max_key : option key_range) :
  records_in_range inx min_key max_key = 10.
Proof. reflexivity. Qed.

(** C10.  The list of system tables holds its terminating entry and
    nothing else, and [keti_is_supported_system_table] answers [false]
    for every database name, table name and flag. *)
Theorem no_supported_system_table (db_name table_name : c_str) (flag : bool) :
  map (fun e => (c_addr (db e), c_addr (tablename e))) ha_keti_system_tables
    = [(0, 0)] /\
  keti_is_supported_system_table db_name table_name flag = false.
Proof. split; [reflexivity|]. destruct flag; reflexivity. Qed.

(** ** Beginning a scan *)

Lemma of_nat_not_minus_one (fd : nat) : (Z.of_nat fd =? -1) = false.
Proof. apply Z.eqb_neq. lia. Qed.

(** X1.  [rnd_init] returns 0 exactly when [socket] gives a descriptor and
    [connect] on it succeeds, and -1 otherwise.  It connects to
    10.0.5.101, port 8188, and to nothing else; when [socket] fails it
    makes no further call and leaves -1 in [client_sockfd]. *)
Theorem rnd_init_outcome (K : kernel) (scan : bool) (w : world) :
  match k_socket K (calls w) with
  | None =>
      fst (rnd_init K scan w) = -1 /\
      calls (snd (rnd_init K scan w)) = calls w ++ [EvSocket (-1)] /\
      client_sockfd (snd (rnd_init K scan w)) = -1 /\
      open_fds (snd (rnd_init K scan w)) = open_fds w
  | Some fd =>
      fst (rnd_init K scan w)
        = (if k_connect K (calls w ++ [EvSocket (Z.of_nat fd)]) (Z.of_nat fd)
           then 0 else -1) /\
      calls (snd (rnd_init K scan w))
        = calls w ++ [EvSocket (Z.of_nat fd);
                      EvConnect (Z.of_nat fd) "10.0.5.101" 8188
                        (fst (rnd_init K scan w))] /\
      client_sockfd (snd (rnd_init K scan w)) = Z.of_nat fd
  end.
Proof.
  unfold rnd_init, bind, sys_socket, put_client_sockfd.
  destruct (k_socket K (calls w)) as [fd|].
  - rewrite of_nat_not_minus_one. unfold sys_connect.
    cbn [calls log_call set_open set_client_sockfd].
    destruct (k_connect K (calls w ++ [EvSocket (Z.of_nat fd)]) (Z.of_nat fd));
      cbn; rewrite <- app_assoc; repeat split.
  - cbn. repeat split.
Qed.

(** X2.  When [socket] succeeds and [connect] fails, [rnd_init] returns -1
    with the new descriptor still open and kept in [client_sockfd]:
    the failed scan holds a socket that nothing closes. *)
Theorem rnd_init_connect_failure (K : kernel) (scan : bool) (w : world)
    (fd : nat) :
  k_socket K (calls w) = Some fd ->
  k_connect K (calls w ++ [EvSocket (Z.of_nat fd)]) (Z.of_nat fd) = false ->
  fst (rnd_init K scan w) = -1 /\
  open_fds (snd (rnd_init K scan w)) = Z.of_nat fd :: open_fds w /\
  client_sockfd (snd (rnd_init K scan w)) = Z.of_nat fd /\
  filter is_close (calls (snd (rnd_init K scan w))) = filter is_close (calls w).
Proof.
  intros Hs Hc.
  unfold rnd_init, bind, sys_socket, put_client_sockfd. rewrite Hs.
  rewrite of_nat_not_minus_one. unfold sys_connect.
  cbn [calls log_call set_open set_client_sockfd]. rewrite Hc. cbn.
  repeat split. rewrite <- app_assoc, filter_app. cbn. apply app_nil_r.
Qed.

Lemma rnd_init_connect_failure_witness :
  k_socket (peer (Some 3%nat) false []) (calls idle) = Some 3%nat /\
  k_connect (peer (Some 3%nat) false []) (calls idle ++ [EvSocket 3]) 3 = false /\
  fst (rnd_init (peer (Some 3%nat) false []) true idle) = -1 /\
  open_fds (snd (rnd_init (peer (Some 3%nat) false []) true idle)) = [3] /\
  client_sockfd (snd (rnd_init (peer (Some 3%nat) false []) true idle)) = 3.
Proof.
  split; [reflexivity|]. split; [reflexivity|].
  destruct (rnd_init_connect_failure (peer (Some 3%nat) false []) true idle 3)
    as (H1 & H2 & H3 & _); [reflexivity | reflexivity |].
  split; [exact H1 | split; [exact H2 | exact H3]].
Defined.

(** ** What goes over the wire *)

Lemma rnd_next_calls (E : Z) (K : kernel) (n : nat) (buf : memory) (w : world) :
  exists sent r got,
    calls (step_world E K n buf w)
      = calls w ++ [EvSend (client_sockfd w) (lit "r") sent;
                    EvRecv (client_sockfd w) n r got] /\
    (List.length got <= n)%nat /\
    recv_result r got.
Proof.
  unfold step_world, rnd_next, bind, get_client_sockfd, sys_send, sys_recv.
  cbn [calls log_call].
  match goal with |- context [k_recv K ?h ?f ?c] =>
    destruct (k_recv K h f c) as [|data] eqn:Hrecv end.
  - eexists _, (-1), []. cbn. rewrite <- app_assoc. repeat split.
    + lia.
    + left. split; reflexivity.
  - assert (Hlen : (List.length (firstn n data) <= n)%nat)
      by (rewrite length_firstn; lia).
    remember (firstn n data) as got eqn:Hgot. clear Hgot.
    eexists _, _, got. cbv zeta.
    destruct (to_int (Z.of_nat (List.length got)) <? 1).
    + cbn. rewrite <- app_assoc. repeat split.
      * exact Hlen.
      * right; reflexivity.
    + match goal with |- context [negb ?b] => destruct (negb b) end;
        cbn; rewrite <- app_assoc; (repeat split;
          [exact Hlen | right; reflexivity]).
Qed.

(** X3.  A scan step is one request and one read on [client_sockfd]: the
    single byte ['r'] is sent, then [recv] is asked for [reclength]
    bytes and delivers no more.  This holds on every path; the result
    of [send] is not looked at. *)
Theorem rnd_next_wire (E : Z) (K : kernel) (n : nat) (buf : memory) (w : world) :
  exists sent r got,
    calls (step_world E K n buf w)
      = calls w ++ [EvSend (client_sockfd w) (lit "r") sent;
                    EvRecv (client_sockfd w) n r got] /\
    (List.length got <= n)%nat /\
    recv_result r got.
Proof. exact (rnd_next_calls E K n buf w). Qed.

(** X4.  A scan step changes the host's buffer exactly where [recv]
    put bytes.  The bytes delivered, at most [reclength], lie at the
    start of the buffer; every byte behind them, inside the record and
    beyond it, keeps the value it had; and when [recv] fails or finds
    the stream closed, nothing is delivered and the whole buffer is as
    before. *)
Theorem rnd_next_buffer_bounds (E : Z) (K : kernel) (n : nat) (buf : memory)
    (w : world) :
  exists r got,
    reply (step_world E K n buf w) = Some (r, got) /\
    (List.length got <= n)%nat /\
    load (step_buf E K n buf w) (List.length got) = got /\
    (forall i, (List.length got <= i)%nat -> step_buf E K n buf w i = buf i) /\
    (r < 1 -> got = []).
Proof.
  unfold step_buf, step_world.
  destruct (rnd_next_run E K n buf w) as (r & got & Hr & Hres & Hn & Hb & _).
  exists r, got. split; [exact Hr|]. split; [exact Hn|]. split; [|split].
  - rewrite (load_ext _ _ _ Hb). apply load_store_full.
  - intros i Hi. rewrite Hb. unfold store. now apply nth_overflow.
  - intros Hlow. destruct Hres as [[_ ->] | ->]; [reflexivity|].
    destruct got; [reflexivity | cbn [List.length] in Hlow; lia].
Qed.

Lemma rnd_next_buffer_bounds_witness :
  reply (step_world 137 (peer (Some 3%nat) true [RecvBytes (lit "abc")]) 8
           (of_list row8 xaa) scanning) = Some (3, lit "abc") /\
  load (step_buf 137 (peer (Some 3%nat) true [RecvBytes (lit "abc")]) 8
          (of_list row8 xaa) scanning) 10
    = lit "abc" ++ [x04; x05; x06; x07; x08; xaa; xaa] /\
  exists r got,
    reply (step_world 137 (peer (Some 3%nat) true [RecvBytes (lit "abc")]) 8
             (of_list row8 xaa) scanning) = Some (r, got) /\
    (List.length got <= 8)%nat /\
    load (step_buf 137 (peer (Some 3%nat) true [RecvBytes (lit "abc")]) 8
            (of_list row8 xaa) scanning) (List.length got) = got /\
    (forall i, (List.length got <= i)%nat ->
       step_buf 137 (peer (Some 3%nat) true [RecvBytes (lit "abc")]) 8
         (of_list row8 xaa) scanning i = of_list row8 xaa i) /\
    (r < 1 -> got = []).
Proof.
  split; [reflexivity|]. split; [reflexivity|].
  exact (rnd_next_buffer_bounds 137 (peer (Some 3%nat) true [RecvBytes (lit "abc")]) 8
           (of_list row8 xaa) scanning).
Defined.

(** X5.  An insert that gets its connection is five calls on a descriptor of
    its own: [socket], [connect] to 10.0.5.101 port 8188, the byte
    ['w'], the first [reclength] bytes of the row, then one [recv] for
    at most 20 bytes.  The row is sent whatever the first [send]
    returned, and the reply is awaited whatever both returned. *)
Theorem write_row_wire (K : kernel) (n : nat) (row stack : memory) (w : world)
    (fd : nat) :
  k_socket K (calls w) = Some fd ->
  k_connect K (calls w ++ [EvSocket (Z.of_nat fd)]) (Z.of_nat fd) = true ->
  exists sent1 sent2 r got,
    calls (insert_world K n row stack w)
      = calls w ++ [EvSocket (Z.of_nat fd);
                    EvConnect (Z.of_nat fd) "10.0.5.101" 8188 0;
                    EvSend (Z.of_nat fd) (lit "w") sent1;
                    EvSend (Z.of_nat fd) (load row n) sent2;
                    EvRecv (Z.of_nat fd) 20 r got] /\
    (List.length got <= 20)%nat /\
    recv_result r got.
Proof.
  intros Hs Hc.
  unfold insert_world, write_row, bind, sys_socket. rewrite Hs.
  rewrite of_nat_not_minus_one. unfold sys_connect.
  cbn [calls log_call set_open]. rewrite Hc.
  change (0 =? -1) with false. cbv iota.
  unfold sys_send, sys_recv. cbn [calls log_call].
  match goal with |- context [k_recv K ?h ?f ?c] =>
    destruct (k_recv K h f c) as [|data] end.
  - eexists _, _, (-1), []. cbn. repeat rewrite <- app_assoc. repeat split.
    + lia.
    + left. split; reflexivity.
  - assert (Hlen : (List.length (firstn 20 data) <= 20)%nat)
      by (rewrite length_firstn; lia).
    remember (firstn 20 data) as got eqn:Hgot. clear Hgot.
    eexists _, _, _, got.
    destruct (Z.of_nat (List.length got) <? 1).
    + cbn. repeat rewrite <- app_assoc. repeat split.
      * exact Hlen.
      * right; reflexivity.
    + match goal with |- context [negb ?b] => destruct (negb b) end;
        cbn; repeat rewrite <- app_assoc; (repeat split;
          [exact Hlen | right; reflexivity]).
Qed.

Lemma write_row_wire_witness :
  k_socket (peer (Some 3%nat) true [RecvBytes success0]) (calls idle) = Some 3%nat /\
  k_connect (peer (Some 3%nat) true [RecvBytes success0])
    (calls idle ++ [EvSocket 3]) 3 = true /\
  exists sent1 sent2 r got,
    calls (insert_world (peer (Some 3%nat) true [RecvBytes success0]) 8
             (of_list row8 x00) (of_list [] xaa) idle)
      = calls idle ++ [EvSocket 3; EvConnect 3 "10.0.5.101" 8188 0;
                       EvSend 3 (lit "w") sent1; EvSend 3 row8 sent2;
                       EvRecv 3 20 r got] /\
    (List.length got <= 20)%nat /\
    recv_result r got.
Proof.
  split; [reflexivity|]. split; [reflexivity|].
  apply (write_row_wire (peer (Some 3%nat) true [RecvBytes success0]) 8
           (of_list row8 x00) (of_list [] xaa) idle 3); reflexivity.
Defined.

(** X6.  An insert in the middle of a scan leaves the scan alone: it does
    not touch [client_sockfd], and the next scan step sends its ['r']
    and reads on the descriptor the scan had before the insert. *)
Theorem insert_leaves_scan (E : Z) (K : kernel) (n : nat)
    (row stack buf : memory) (w : world) :
  client_sockfd (insert_world K n row stack w) = client_sockfd w /\
  exists sent r got,
    calls (step_world E K n buf (insert_world K n row stack w))
      = calls (insert_world K n row stack w)
          ++ [EvSend (client_sockfd w) (lit "r") sent;
              EvRecv (client_sockfd w) n r got].
Proof.
  destruct (write_row_frame K n row stack w) as [(_ & Hfd & _) _].
  fold (insert_world K n row stack w) in Hfd.
  split; [exact Hfd|].
  destruct (rnd_next_calls E K n buf (insert_world K n row stack w))
    as (sent & r & got & Hcalls & _).
  exists sent, r, got. rewrite Hcalls, Hfd. reflexivity.
Qed.

(** ** Whole scans and runs of inserts *)

Lemma scan_steps_frame (E : Z) (K : kernel) (n k : nat) (buf : memory) (w : world) :
  undisturbed w (snd (scan_steps E K n k buf w)) /\
  open_fds (snd (scan_steps E K n k buf w)) = open_fds w.
Proof.
  revert buf w. induction k as [|k IH]; intros buf w.
  - split; [apply undisturbed_refl | reflexivity].
  - cbn [scan_steps]. unfold bind.
    destruct (rnd_next_frame E K n buf w) as [U1 O1].
    destruct (rnd_next E K n buf w) as [[rc buf1] w1]. cbn [snd] in U1, O1.
    destruct (IH buf1 w1) as [U2 O2].
    destruct (scan_steps E K n k buf1 w1) as [[rcs buf2] w2]. cbn [snd] in U2, O2.
    unfold ret; cbn [snd]. split; [eauto using undisturbed_trans | congruence].
Qed.

(** X7.  However many steps a scan makes, none of them returns 0: each code
    is -1 or [HA_ERR_END_OF_FILE], one code per step. *)
Theorem scan_steps_codes (E : Z) (K : kernel) (n k : nat) (buf : memory)
    (w : world) :
  E <> 0 ->
  List.length (fst (fst (scan_steps E K n k buf w))) = k /\
  Forall (fun rc => (rc = -1 \/ rc = E) /\ rc <> 0)
         (fst (fst (scan_steps E K n k buf w))).
Proof.
  intros HE. revert buf w. induction k as [|k IH]; intros buf w.
  - split; [reflexivity | constructor].
  - cbn [scan_steps]. unfold bind.
    pose proof (rnd_next_run E K n buf w) as Hrun. cbv zeta in Hrun.
    destruct (rnd_next E K n buf w) as [[rc buf1] w1]. cbn [fst snd] in Hrun.
    destruct Hrun as (r & got & _ & _ & _ & _ & Hrc).
    destruct (IH buf1 w1) as [Hlen Hall].
    destruct (scan_steps E K n k buf1 w1) as [[rcs buf2] w2].
    cbn [fst snd] in Hlen, Hall. unfold ret; cbn [fst snd List.length].
    split; [now rewrite Hlen|].
    constructor; [|exact Hall].
    destruct (judged_cases E (to_int r) (store got buf)) as [H | H];
      rewrite H in Hrc; subst rc; split; auto; lia.
Qed.

Lemma scan_steps_codes_witness :
  137 <> 0 /\
  List.length
    (fst (fst (scan_steps 137 (counting (RecvBytes row8)) 8 3
                 (of_list [] x00) scanning))) = 3%nat /\
  Forall (fun rc => (rc = -1 \/ rc = 137) /\ rc <> 0)
    (fst (fst (scan_steps 137 (counting (RecvBytes row8)) 8 3
                 (of_list [] x00) scanning))).
Proof.
  split; [lia|].
  apply (scan_steps_codes 137 (counting (RecvBytes row8)) 8 3
           (of_list [] x00) scanning).
  lia.
Defined.

(** X8.  A scan never gives its socket back.  After a successful
    [rnd_init], any number of scan steps and [rnd_end], which returns
    0, the descriptor [rnd_init] obtained is still open, still in
    [client_sockfd], and no [close] has been issued. *)
Theorem scan_keeps_socket (E : Z) (K : kernel) (n k : nat) (buf : memory)
    (w : world) :
  fst (rnd_init K true w) = 0 ->
  fst (rnd_end (snd (scan_steps E K n k buf (snd (rnd_init K true w))))) = 0 /\
  In (client_sockfd (snd (rnd_init K true w)))
     (open_fds (snd (rnd_end (snd (scan_steps E K n k buf
                                     (snd (rnd_init K true w))))))) /\
  client_sockfd (snd (rnd_end (snd (scan_steps E K n k buf
                                      (snd (rnd_init K true w))))))
    = client_sockfd (snd (rnd_init K true w)) /\
  filter is_close
    (calls (snd (rnd_end (snd (scan_steps E K n k buf
                                 (snd (rnd_init K true w)))))))
    = filter is_close (calls w).
Proof.
  intros Hinit.
  destruct (rnd_init_ok K true w Hinit) as (Hin & _ & Hcl).
  destruct (scan_steps_frame E K n k buf (snd (rnd_init K true w)))
    as [(Hc & Hfd & _) Ho].
  unfold rnd_end, ret. cbn [fst snd].
  split; [reflexivity|]. split; [now rewrite Ho|].
  split; [exact Hfd | now rewrite Hc].
Qed.

Lemma scan_keeps_socket_witness :
  fst (rnd_init (counting (RecvBytes success0)) true idle) = 0 /\
  open_fds (snd (rnd_end (snd (scan_steps 137 (counting (RecvBytes success0)) 8 2
                                 (of_list [] x00)
                                 (snd (rnd_init (counting (RecvBytes success0))
                                         true idle)))))) = [3] /\
  In (client_sockfd (snd (rnd_init (counting (RecvBytes success0)) true idle)))
     (open_fds (snd (rnd_end (snd (scan_steps 137 (counting (RecvBytes success0)) 8 2
                                     (of_list [] x00)
                                     (snd (rnd_init (counting (RecvBytes success0))
                                             true idle))))))).
Proof.
  split; [reflexivity|]. split; [reflexivity|].
  apply (scan_keeps_socket 137 (counting (RecvBytes success0)) 8 2
           (of_list [] x00) idle).
  reflexivity.
Defined.

Lemma rnd_init_opens (K : kernel) (scan : bool) (w : world) :
  fst (rnd_init K scan w) = 0 ->
  open_fds (snd (rnd_init K scan w))
    = client_sockfd (snd (rnd_init K scan w)) :: open_fds w.
Proof.
  unfold rnd_init, bind, sys_socket, put_client_sockfd.
  destruct (k_socket K (calls w)) as [fd|].
  - rewrite of_nat_not_minus_one. unfold sys_connect.
    cbn [calls log_call set_open set_client_sockfd].
    destruct (k_connect K (calls w ++ [EvSocket (Z.of_nat fd)]) (Z.of_nat fd));
      cbn; [reflexivity | discriminate].
  - cbn. discriminate.
Qed.

(** X9.  Beginning a scan again takes a new socket and forgets the old one:
    after a first scan, begun, stepped and ended, and a second
    successful [rnd_init], both descriptors are open and
    [client_sockfd] holds only the second. *)
Theorem second_scan_orphans_first (E : Z) (K : kernel) (n k : nat)
    (buf : memory) (w : world) :
  fst (rnd_init K true w) = 0 ->
  fst (rnd_init K true
         (snd (rnd_end (snd (scan_steps E K n k buf (snd (rnd_init K true w)))))))
    = 0 ->
  open_fds (snd (rnd_init K true
              (snd (rnd_end (snd (scan_steps E K n k buf
                                    (snd (rnd_init K true w))))))))
    = client_sockfd
        (snd (rnd_init K true
                (snd (rnd_end (snd (scan_steps E K n k buf
                                      (snd (rnd_init K true w))))))))
      :: client_sockfd (snd (rnd_init K true w)) :: open_fds w.
Proof.
  intros H1 H2.
  rewrite (rnd_init_opens K true _ H2). f_equal.
  unfold rnd_end, ret. cbn [snd].
  destruct (scan_steps_frame E K n k buf (snd (rnd_init K true w))) as [_ Ho].
  rewrite Ho. now apply rnd_init_opens.
Qed.

Lemma second_scan_orphans_first_witness :
  fst (rnd_init (counting (RecvBytes success0)) true idle) = 0 /\
  fst (rnd_init (counting (RecvBytes success0)) true
         (snd (rnd_end (snd (scan_steps 137 (counting (RecvBytes success0)) 8 1
                               (of_list [] x00)
                               (snd (rnd_init (counting (RecvBytes success0))
                                       true idle))))))) = 0 /\
  open_fds (snd (rnd_init (counting (RecvBytes success0)) true
              (snd (rnd_end (snd (scan_steps 137 (counting (RecvBytes success0)) 8 1
                                    (of_list [] x00)
                                    (snd (rnd_init (counting (RecvBytes success0))
                                            true idle))))))))
    = [4; 3].
Proof.
  split; [reflexivity|]. split; [reflexivity|].
  exact (second_scan_orphans_first 137 (counting (RecvBytes success0)) 8 1
           (of_list [] x00) idle eq_refl eq_refl).
Defined.

(** X10.  Inserts pile up descriptors.  With a kernel that never refuses a
    socket, inserting a list of rows leaves one more descriptor open
    for each row, whatever the peer answered; every code is 0 or -1,
    nothing is closed and [client_sockfd] is not touched. *)
Theorem insert_rows_accumulate (K : kernel) (n : nat)
    (rows : list (memory * memory)) (w : world) :
  (forall evs, k_socket K evs <> None) ->
  List.length (open_fds (snd (insert_rows K n rows w)))
    = (List.length rows + List.length (open_fds w))%nat /\
  List.length (fst (insert_rows K n rows w)) = List.length rows /\
  Forall (fun rc => rc = 0 \/ rc = -1) (fst (insert_rows K n rows w)) /\
  undisturbed w (snd (insert_rows K n rows w)).
Proof.
  intros Hsock. revert w. induction rows as [|[row stack] rows IH]; intros w.
  - cbn. repeat split. constructor.
  - cbn [insert_rows]. unfold bind.
    destruct (write_row_frame K n row stack w) as [U1 O1].
    pose proof (write_row_run K n row stack w) as Hrun. cbv zeta in Hrun.
    destruct (write_row K n row stack w) as [rc w1]. cbn [fst snd] in *.
    destruct (IH w1) as (Ho & Hl & Hall & U2).
    destruct (insert_rows K n rows w1) as [rcs w2]. cbn [fst snd] in *.
    unfold ret; cbn [fst snd List.length].
    split; [|split; [|split]].
    + rewrite Ho. destruct (k_socket K (calls w)) as [fd|] eqn:Hk.
      * rewrite O1. cbn [List.length]. lia.
      * exfalso. now apply (Hsock (calls w)).
    + now rewrite Hl.
    + constructor; [|exact Hall].
      destruct (reply w1) as [[r got]|].
      * destruct Hrun as [_ ->].
        destruct (judged_cases 0 r (store got stack)); auto.
      * now right.
    + eauto using undisturbed_trans.
Qed.

Lemma insert_rows_accumulate_witness :
  (forall evs, k_socket (counting (RecvBytes success0)) evs <> None) /\
  open_fds (snd (insert_rows (counting (RecvBytes success0)) 8
                   [(of_list row8 x00, of_list [] xaa);
                    (of_list row8 x00, of_list [] xaa)] idle)) = [4; 3] /\
  List.length
    (open_fds (snd (insert_rows (counting (RecvBytes success0)) 8
                      [(of_list row8 x00, of_list [] xaa);
                       (of_list row8 x00, of_list [] xaa)] idle)))
    = (2 + 0)%nat.
Proof.
  assert (H : forall evs, k_socket (counting (RecvBytes success0)) evs <> None)
    by (intros evs; discriminate).
  split; [exact H|]. split; [reflexivity|].
  apply (insert_rows_accumulate (counting (RecvBytes success0)) 8
           [(of_list row8 x00, of_list [] xaa);
            (of_list row8 x00, of_list [] xaa)] idle H).
Defined.

(** ** Creating tables *)

(** X11.  The note [create] leaves never overruns its buffer: it has at most
    [size - 1] characters, room for the terminator, it is a prefix of
    ["Last creation '<name>'"], and it is all of it as soon as [size]
    exceeds the length of the name by more than 16. *)
Theorem snprintf_last_creation_fits (size : nat) (name : list byte) :
  (List.length (snprintf_last_creation size name) <= size - 1)%nat /\
  (exists rest,
     lit "Last creation '" ++ name ++ lit "'"
       = snprintf_last_creation size name ++ rest) /\
  ((16 + List.length name < size)%nat ->
   snprintf_last_creation size name = lit "Last creation '" ++ name ++ lit "'").
Proof.
  unfold snprintf_last_creation. split; [|split].
  - rewrite length_firstn. lia.
  - exists (skipn (size - 1) (lit "Last creation '" ++ name ++ lit "'")).
    symmetry. apply firstn_skipn.
  - intros H. apply firstn_all2. rewrite !length_app.
    change (List.length (lit "Last creation '")) with 15%nat.
    change (List.length (lit "'")) with 1%nat. lia.
Qed.

Lemma snprintf_last_creation_fits_witness :
  (16 + List.length (lit "t1") < 1024)%nat /\
  snprintf_last_creation 1024 (lit "t1") = lit "Last creation 't1'" /\
  snprintf_last_creation 8 (lit "t1") = lit "Last cr".
Proof.
  split; [simpl; lia|]. split; [|reflexivity].
  destruct (snprintf_last_creation_fits 1024 (lit "t1")) as (_ & _ & H).
  apply H. simpl; lia.
Defined.

(** X12.  Creating tables one after the other always succeeds and makes no
    system call; the session counter, an unsigned 32-bit value, ends
    up advanced by the number of tables, modulo 2^32, and the note is
    that of the last table created. *)
Theorem create_all_counts (size : nat) (names : list (list byte)) (w : world) :
  0 <= create_count_thdvar w < 2 ^ 32 ->
  fst (create_all size names w) = repeat 0 (List.length names) /\
  create_count_thdvar (snd (create_all size names w))
    = (create_count_thdvar w + Z.of_nat (List.length names)) mod 2 ^ 32 /\
  last_create_thdvar (snd (create_all size names w))
    = match rev names with
      | [] => last_create_thdvar w
      | name :: _ => Some (snprintf_last_creation size name)
      end /\
  calls (snd (create_all size names w)) = calls w /\
  open_fds (snd (create_all size names w)) = open_fds w /\
  client_sockfd (snd (create_all size names w)) = client_sockfd w.
Proof.
  revert w. induction names as [|name names IH]; intros w Hc.
  - cbn. repeat split. rewrite Z.add_0_r, Z.mod_small; [reflexivity | exact Hc].
  - cbn [create_all]. unfold bind.
    assert (Hstep : fst (create size name w) = 0 /\
              create_count_thdvar (snd (create size name w))
                = (create_count_thdvar w + 1) mod 2 ^ 32 /\
              last_create_thdvar (snd (create size name w))
                = Some (snprintf_last_creation size name) /\
              calls (snd (create size name w)) = calls w /\
              open_fds (snd (create size name w)) = open_fds w /\
              client_sockfd (snd (create size name w)) = client_sockfd w)
      by (repeat split).
    destruct (create size name w) as [rc w1]. cbn [fst snd] in Hstep.
    destruct Hstep as (-> & Hcount & Hlast & Hcalls & Hopen & Hfd).
    assert (Hc1 : 0 <= create_count_thdvar w1 < 2 ^ 32)
      by (rewrite Hcount; apply Z.mod_pos_bound; lia).
    destruct (IH w1 Hc1) as (I1 & I2 & I3 & I4 & I5 & I6).
    destruct (create_all size names w1) as [rcs w2]. cbn [fst snd] in *.
    unfold ret; cbn [fst snd List.length repeat].
    split; [now rewrite I1|]. split; [|split; [|repeat split; congruence]].
    + rewrite I2, Hcount, Zplus_mod_idemp_l. f_equal. lia.
    + rewrite I3. cbn [rev].
      destruct (rev names) as [|last rest]; [exact Hlast | reflexivity].
Qed.

Lemma create_all_counts_witness :
  0 <= create_count_thdvar idle < 2 ^ 32 /\
  fst (create_all 1024 [lit "t1"; lit "t2"; lit "t3"] idle) = [0; 0; 0] /\
  create_count_thdvar (snd (create_all 1024 [lit "t1"; lit "t2"; lit "t3"] idle))
    = 3 /\
  create_count_thdvar
    (snd (create_all 1024 [lit "t1"] (set_create_count (2 ^ 32 - 1) idle))) = 0.
Proof.
  split; [simpl; lia|].
  destruct (create_all_counts 1024 [lit "t1"; lit "t2"; lit "t3"] idle)
    as (H1 & H2 & _); [simpl; lia|].
  split; [exact H1|]. split; [exact H2|].
  destruct (create_all_counts 1024 [lit "t1"] (set_create_count (2 ^ 32 - 1) idle))
    as (_ & H3 & _); [simpl; lia|].
  exact H3.
Defined.

(** ** The loop over the system tables *)

Lemma load_of_list_cons (a : byte) (s : list byte) (f : byte) (n : nat) :
  load (of_list (a :: s) f) (S n) = a :: load (of_list s f) n.
Proof.
  unfold load. simpl. f_equal.
  rewrite <- seq_shift, map_map. apply map_ext. intros i. reflexivity.
Qed.

Lemma load_of_list_eq (s t : list byte) :
  Forall (fun c => c <> x00) s -> Forall (fun c => c <> x00) t ->
  (load (of_list s x00) (S (List.length t)) = t ++ [x00] <-> s = t).
Proof.
  intros Hs. revert t. induction Hs as [|a s Ha Hs IH]; intros t Ht.
  - destruct t as [|b t].
    + split; reflexivity.
    + inversion Ht as [|? ? Hb _]; subst. split; [|discriminate].
      cbn. intros H. injection H as H _. now symmetry in H.
  - destruct Ht as [|b t Hb Ht].
    + split; [|discriminate]. cbn. intros H. injection H as H. contradiction.
    + cbn [List.length]. rewrite load_of_list_cons. cbn [app]. split.
      * intros H. injection H as -> H. f_equal. now apply IH.
      * intros H. injection H as -> ->. f_equal. now apply IH.
Qed.

Lemma strcmp_of_list (s t : list byte) :
  Forall (fun c => c <> x00) s -> Forall (fun c => c <> x00) t ->
  (strcmp (of_list s x00) t = 0 <-> s = t).
Proof.
  intros Hs Ht. unfold strcmp.
  rewrite (strcmp_from_zero_iff _ t Ht 0). now apply load_of_list_eq.
Qed.

(** X13.  Read over any table of C strings, the loop of
    [keti_is_supported_system_table] finds a table exactly when an
    entry before the first null [db] has the very [db] pointer passed
    in, compared as an address and not as a string, and a name equal to
    the one passed in; entries behind the terminator are never
    reached. *)
Theorem systab_loop_listed (systab : list st_handler_tablename)
    (db_name table_name : c_str) :
  Forall (fun e => Forall (fun c => c <> x00) (c_chars (tablename e))) systab ->
  Forall (fun c => c <> x00) (c_chars table_name) ->
  systab_loop systab db_name table_name = listed systab db_name table_name.
Proof.
  intros Hall Ht. induction Hall as [|e systab He _ IH].
  - reflexivity.
  - cbn [systab_loop listed]. destruct (c_addr (db e) =? 0); [reflexivity|].
    rewrite IH.
    destruct (c_addr (db e) =? c_addr db_name); cbn [andb orb]; [|reflexivity].
    destruct (list_eq_dec Byte.byte_eq_dec (c_chars (tablename e))
                (c_chars table_name)) as [Heq | Hne].
    + apply (strcmp_of_list _ _ He Ht) in Heq. rewrite Heq. reflexivity.
    + destruct (Z.eqb_spec
                  (strcmp (of_list (c_chars (tablename e)) x00) (c_chars table_name))
                  0) as [H0 | _]; [|reflexivity].
      apply (strcmp_of_list _ _ He Ht) in H0. contradiction.
Qed.

Lemma systab_loop_listed_witness :
  Forall (fun e => Forall (fun c => c <> x00) (c_chars (tablename e)))
    [ {| db := {| c_addr := 4096; c_chars := lit "mysql" |};
         tablename := {| c_addr := 4112; c_chars := lit "t1" |} |};
      {| db := NULL; tablename := NULL |} ] /\
  Forall (fun c => c <> x00) (lit "t1") /\
  systab_loop
    [ {| db := {| c_addr := 4096; c_chars := lit "mysql" |};
         tablename := {| c_addr := 4112; c_chars := lit "t1" |} |};
      {| db := NULL; tablename := NULL |} ]
    {| c_addr := 8192; c_chars := lit "mysql" |}
    {| c_addr := 8208; c_chars := lit "t1" |} = false /\
  systab_loop
    [ {| db := {| c_addr := 4096; c_chars := lit "mysql" |};
         tablename := {| c_addr := 4112; c_chars := lit "t1" |} |};
      {| db := NULL; tablename := NULL |} ]
    {| c_addr := 4096; c_chars := lit "mysql" |}
    {| c_addr := 8208; c_chars := lit "t1" |} = true.
Proof.
  assert (H1 : Forall (fun e => Forall (fun c => c <> x00) (c_chars (tablename e)))
    [ {| db := {| c_addr := 4096; c_chars := lit "mysql" |};
         tablename := {| c_addr := 4112; c_chars := lit "t1" |} |};
      {| db := NULL; tablename := NULL |} ])
    by (repeat constructor; discriminate).
  assert (H2 : Forall (fun c => c <> x00) (lit "t1"))
    by (repeat constructor; discriminate).
  split; [exact H1|]. split; [exact H2|]. split.
  - rewrite (systab_loop_listed _ {| c_addr := 8192; c_chars := lit "mysql" |}
               {| c_addr := 8208; c_chars := lit "t1" |} H1 H2). reflexivity.
  - rewrite (systab_loop_listed _ {| c_addr := 4096; c_chars := lit "mysql" |}
               {| c_addr := 8208; c_chars := lit "t1" |} H1 H2). reflexivity.
Defined.

(** ** Locks *)

Section StoreLockFacts.

Variables TL_IGNORE TL_UNLOCK : Z.

Lemma store_locks_held (lock : THR_LOCK_DATA) (to : list Z) (requests : list Z) :
  type lock <> TL_UNLOCK ->
  store_locks TL_IGNORE TL_UNLOCK lock to requests
    = (lock, to ++ repeat (lock_addr lock) (List.length requests)).
Proof.
  intros Hheld. revert to. induction requests as [|t requests IH]; intros to.
  - cbn. now rewrite app_nil_r.
  - cbn [store_locks store_lock].
    destruct (Z.eqb_spec (type lock) TL_UNLOCK) as [|_]; [contradiction|].
    rewrite andb_false_r. rewrite IH. cbn [List.length repeat].
    now rewrite <- app_assoc.
Qed.

(** X14.  The first request for a lock wins.  Over any sequence of
    [store_lock] calls the handler's lock type, when it starts at
    [TL_UNLOCK], becomes the first requested type that is neither
    [TL_IGNORE] nor [TL_UNLOCK] and then stays; a lock type that is
    not [TL_UNLOCK] is never changed.  Every call, whatever it asks,
    adds the handler's one lock to the array. *)
Theorem store_locks_first_wins (lock : THR_LOCK_DATA) (to : list Z)
    (requests : list Z) :
  type (fst (store_locks TL_IGNORE TL_UNLOCK lock to requests))
    = (if type lock =? TL_UNLOCK
       then match find (asks_lock TL_IGNORE TL_UNLOCK) requests with
            | Some t => t
            | None => TL_UNLOCK
            end
       else type lock) /\
  lock_addr (fst (store_locks TL_IGNORE TL_UNLOCK lock to requests))
    = lock_addr lock /\
  snd (store_locks TL_IGNORE TL_UNLOCK lock to requests)
    = to ++ repeat (lock_addr lock) (List.length requests).
Proof.
  revert lock to. induction requests as [|t requests IH]; intros lock to.
  - cbn. rewrite app_nil_r. repeat split.
    destruct (Z.eqb_spec (type lock) TL_UNLOCK); congruence.
  - destruct (Z.eqb_spec (type lock) TL_UNLOCK) as [Hun | Hheld].
    + cbn [store_locks store_lock find]. unfold asks_lock at 1.
      apply Z.eqb_eq in Hun. rewrite Hun, andb_true_r.
      destruct (Z.eqb_spec t TL_IGNORE) as [Hi | Hi]; cbn [negb andb].
      * destruct (IH lock (to ++ [lock_addr lock])) as (I1 & I2 & I3).
        rewrite I1, I2, I3, Hun. cbn [List.length repeat].
        rewrite <- app_assoc. repeat split.
      * destruct (IH {| lock_addr := lock_addr lock; type := t |}
                     (to ++ [lock_addr lock])) as (I1 & I2 & I3).
        cbn [lock_addr type] in *. rewrite I1, I2, I3.
        cbn [List.length repeat]. rewrite <- app_assoc. repeat split.
        destruct (Z.eqb_spec t TL_UNLOCK) as [-> | _]; reflexivity.
    + rewrite (store_locks_held lock to (t :: requests) Hheld). cbn [fst snd].
      repeat split.
Qed.

End StoreLockFacts.

(** ** Opening a table *)

(** X15.  [get_share] never returns a null share, [new] giving none.
    When the table has a share it returns it after locking and
    unlocking the shared handler data, and nothing else; when it has
    none it allocates one, stores it and returns it, between the lock
    and the unlock.  When that allocation fails, [new] throws:
    [get_share] is left by the exception after the lock and before the
    unlock, the table still without a share and the mutex still held. *)
Theorem get_share_paths (fresh : option Z) (t : table_share) :
  fresh <> Some 0 ->
  match fst (get_share fresh t) with
  | Returns p =>
      p <> 0 /\
      ha_share_ptr (snd (get_share fresh t)) = p /\
      ((ha_share_ptr t <> 0 /\ p = ha_share_ptr t /\
        share_calls (snd (get_share fresh t))
          = share_calls t ++ [LockSharedHaData; UnlockSharedHaData]) \/
       (ha_share_ptr t = 0 /\ fresh = Some p /\
        share_calls (snd (get_share fresh t))
          = share_calls t ++ [LockSharedHaData; NewExampleShare (Some p);
                              SetHaSharePtr p; UnlockSharedHaData]))
  | Throws =>
      ha_share_ptr t = 0 /\ fresh = None /\
      ha_share_ptr (snd (get_share fresh t)) = 0 /\
      share_calls (snd (get_share fresh t))
        = share_calls t ++ [LockSharedHaData; NewExampleShare None]
  end.
Proof.
  intros Hnew. unfold get_share. cbn [note_call ha_share_ptr share_calls].
  destruct (Z.eqb_spec (ha_share_ptr t) 0) as [Hnull | Hshare].
  - destruct fresh as [p|].
    + destruct (Z.eqb_spec p 0) as [-> | Hp]; [now elim Hnew|].
      cbn. repeat rewrite <- app_assoc. split; [exact Hp|]. split; [reflexivity|].
      right. repeat split. exact Hnull.
    + cbn. rewrite <- app_assoc. repeat split; assumption.
  - cbn. rewrite <- app_assoc. split; [exact Hshare|]. split; [reflexivity|].
    left. repeat split. exact Hshare.
Qed.

Lemma get_share_paths_witness :
  (None : option Z) <> Some 0 /\
  fst (get_share None {| ha_share_ptr := 0; share_calls := [] |}) = Throws /\
  share_calls (snd (get_share None {| ha_share_ptr := 0; share_calls := [] |}))
    = [] ++ [LockSharedHaData; NewExampleShare None] /\
  fst (get_share None {| ha_share_ptr := 4096; share_calls := [] |})
    = Returns 4096.
Proof.
  split; [discriminate|]. split; [reflexivity|]. split; [|reflexivity].
  pose proof (get_share_paths None {| ha_share_ptr := 0; share_calls := [] |}
                ltac:(discriminate)) as H.
  cbn [fst get_share note_call ha_share_ptr share_calls Z.eqb] in H.
  exact (proj2 (proj2 (proj2 H))).
Defined.

(** X16.  [open] never returns 1, [new] giving no null pointer: when it
    returns, it returns 0 and holds the share of the table, which is
    not null.  It is left by the exception of [new] exactly when the
    table has no share and the allocation fails.  Once an [open] has
    returned, every later [open] of the table returns 0 with the same
    share and allocates nothing, whatever an allocation would do. *)
Theorem open_shares (fresh fresh' : option Z) (t : table_share) :
  fresh <> Some 0 ->
  (forall rc share,
     fst (open fresh t) = Returns (rc, share) ->
     rc = 0 /\ share <> 0 /\
     ha_share_ptr (snd (open fresh t)) = share /\
     fst (open fresh' (snd (open fresh t))) = Returns (0, share) /\
     filter is_new_call (share_calls (snd (open fresh' (snd (open fresh t)))))
       = filter is_new_call (share_calls (snd (open fresh t)))) /\
  (fst (open fresh t) = Throws <-> ha_share_ptr t = 0 /\ fresh = None).
Proof.
  intros Hnew.
  assert (Hagain : forall t0 p, ha_share_ptr t0 = p -> p <> 0 ->
            fst (open fresh' t0) = Returns (0, p) /\
            filter is_new_call (share_calls (snd (open fresh' t0)))
              = filter is_new_call (share_calls t0)).
  { intros t0 p Hp Hnz. unfold open, get_share.
    cbn [note_call ha_share_ptr share_calls]. rewrite Hp.
    destruct (Z.eqb_spec p 0) as [|_]; [contradiction|].
    destruct (Z.eqb_spec p 0) as [|_]; [contradiction|].
    cbn. split; [reflexivity|]. rewrite !filter_app. cbn. now rewrite !app_nil_r. }
  remember (open fresh t) as o eqn:Ho.
  unfold open, get_share in Ho. cbn [note_call ha_share_ptr share_calls] in Ho.
  destruct (Z.eqb_spec (ha_share_ptr t) 0) as [Hnull | Hshare].
  - destruct fresh as [p|].
    + destruct (Z.eqb_spec p 0) as [-> | Hp]; [now elim Hnew|].
      destruct (Z.eqb_spec p 0) as [|_]; [contradiction|].
      subst o. cbn [fst snd]. split.
      * intros rc share Heq. injection Heq as <- <-.
        split; [reflexivity|]. split; [exact Hp|]. split; [reflexivity|].
        apply Hagain; [reflexivity | exact Hp].
      * split; [discriminate | intros [_ H]; discriminate].
    + subst o. cbn [fst snd]. split; [discriminate|]. split; auto.
  - destruct (Z.eqb_spec (ha_share_ptr t) 0) as [|_]; [contradiction|].
    subst o. cbn [fst snd]. split.
    + intros rc share Heq. injection Heq as <- <-.
      split; [reflexivity|]. split; [exact Hshare|]. split; [reflexivity|].
      apply Hagain; [reflexivity | exact Hshare].
    + split; [discriminate | intros [H _]; contradiction].
Qed.

Lemma open_shares_witness :
  Some 4096 <> Some 0 /\
  fst (open (Some 4096) {| ha_share_ptr := 0; share_calls := [] |})
    = Returns (0, 4096) /\
  fst (open None (snd (open (Some 4096) {| ha_share_ptr := 0; share_calls := [] |})))
    = Returns (0, 4096) /\
  fst (open None {| ha_share_ptr := 0; share_calls := [] |}) = Throws.
Proof.
  split; [discriminate|]. split; [reflexivity|].
  destruct (open_shares (Some 4096) None {| ha_share_ptr := 0; share_calls := [] |}
              ltac:(discriminate)) as [H _].
  destruct (H 0 4096 eq_refl) as (_ & _ & _ & H2 & _).
  split; [exact H2 | reflexivity].
Defined.

(** ** The pushed condition *)

Lemma display_functype_some (t : Z) :
  display_functype t <> None <-> 0 <= t < 47.
Proof.
  unfold display_functype. destruct (Z.ltb_spec t 0) as [Hneg | Hpos].
  - split; [congruence | lia].
  - destruct (nth_error strFuncType (Z.to_nat t)) as [name|] eqn:Hn.
    + split; [|discriminate]. intros _.
      assert (Hlt : (Z.to_nat t < List.length strFuncType)%nat)
        by (apply nth_error_Some; congruence).
      change (List.length strFuncType) with 47%nat in Hlt. lia.
    + split; [congruence|]. intros Ht.
      apply nth_error_None in Hn.
      change (List.length strFuncType) with 47%nat in Hn. lia.
Qed.

(** X17.  [display_functype] reads its table of 47 names without a check: it
    is within the table exactly for types 0 to 46. *)
Theorem display_functype_bounds (t : Z) :
  display_functype t <> None <-> 0 <= t < 47.
Proof. exact (display_functype_some t). Qed.

Lemma cond_push_loop_last (tempCond : Item) (items : list Item) (a b : Item)
    (level : Z) :
  cond_push_loop tempCond (items ++ [a]) level
    = cond_push_loop tempCond (items ++ [b]) level.
Proof.
  revert tempCond level. induction items as [|i items IH]; intros tempCond level.
  - reflexivity.
  - cbn [app cond_push_loop]. now rewrite (IH i (level + 1)).
Qed.

Lemma cond_push_loop_level (tempCond : Item) (next_free : list Item)
    (level : Z) (out : list string) (level' : Z) :
  cond_push_loop tempCond next_free level = Some (out, level') ->
  level' = level + Z.of_nat (List.length next_free) /\
  (List.length out <= List.length next_free)%nat.
Proof.
  revert tempCond level out level'.
  induction next_free as [|nxt rest IH]; intros tempCond level out level' H.
  - cbn in H. injection H as <- <-. cbn. split; lia.
  - cbn [cond_push_loop] in H.
    destruct (cond_push_item tempCond) as [o|] eqn:Ho; [|discriminate].
    destruct (cond_push_loop nxt rest (level + 1)) as [[o' l']|] eqn:Hl;
      [|discriminate].
    injection H as <- <-. destruct (IH _ _ _ _ Hl) as [-> Hlen].
    assert (Hone : (List.length o <= 1)%nat).
    { unfold cond_push_item in Ho.
      destruct (item_type tempCond);
        try (injection Ho as <-; cbn; lia);
        (destruct (display_functype (functype tempCond)); [|discriminate];
         injection Ho as <-; cbn; lia). }
    rewrite length_app. cbn [List.length]. split; lia.
Qed.

(** X18.  [cond_push] never takes a condition over: whenever it returns, it
    returns the very condition it was given, NULL for NULL.  Its loop
    stops at the item whose [next_free] is null without looking at it,
    so what goes to [stderr] does not depend on the last item of the
    chain, a condition of one item prints nothing, and there is at most
    one line for each of the other items. *)
Theorem cond_push_returns_cond (items : list Item) (a b : Item)
    (other_tbls_ok : bool) :
  cond_push [] other_tbls_ok = Some ([], []) /\
  cond_push [a] other_tbls_ok = Some ([a], []) /\
  option_map snd (cond_push (items ++ [a]) other_tbls_ok)
    = option_map snd (cond_push (items ++ [b]) other_tbls_ok) /\
  (forall cond p out,
     cond_push cond other_tbls_ok = Some (p, out) ->
     p = cond /\ (List.length out <= List.length cond - 1)%nat).
Proof.
  split; [reflexivity|]. split; [reflexivity|]. split.
  - destruct items as [|i items]; [reflexivity|].
    cbn [app cond_push]. rewrite (cond_push_loop_last i items a b 0).
    destruct (cond_push_loop i (items ++ [b]) 0) as [[out l]|]; reflexivity.
  - intros cond p out H. destruct cond as [|c rest].
    + cbn in H. injection H as <- <-. split; [reflexivity | cbn; lia].
    + cbn [cond_push] in H.
      destruct (cond_push_loop c rest 0) as [[o l]|] eqn:Hl; [|discriminate].
      injection H as <- <-. split; [reflexivity|].
      destruct (cond_push_loop_level _ _ _ _ _ Hl) as [_ Hlen].
      cbn [List.length]. lia.
Qed.

Lemma cond_push_returns_cond_witness :
  cond_push [ {| item_type := FUNC_ITEM; functype := 1 |};
              {| item_type := FIELD_ITEM; functype := 0 |};
              {| item_type := FUNC_ITEM; functype := 99 |} ] true
    = Some ([ {| item_type := FUNC_ITEM; functype := 1 |};
              {| item_type := FIELD_ITEM; functype := 0 |};
              {| item_type := FUNC_ITEM; functype := 99 |} ],
            [ ("type=[EQ_FUNC]" ++ String (Ascii.ascii_of_nat 9) "")%string ]) /\
  (List.length [ ("type=[EQ_FUNC]" ++ String (Ascii.ascii_of_nat 9) "")%string ]
   <= 3 - 1)%nat.
Proof.
  split; [reflexivity|].
  destruct (cond_push_returns_cond [] {| item_type := FIELD_ITEM; functype := 0 |}
              {| item_type := FIELD_ITEM; functype := 0 |} true) as (_ & _ & _ & H).
  apply (H [ {| item_type := FUNC_ITEM; functype := 1 |};
             {| item_type := FIELD_ITEM; functype := 0 |};
             {| item_type := FUNC_ITEM; functype := 99 |} ]
           [ {| item_type := FUNC_ITEM; functype := 1 |};
             {| item_type := FIELD_ITEM; functype := 0 |};
             {| item_type := FUNC_ITEM; functype := 99 |} ]).
  reflexivity.
Defined.

(** X19.  [cond_push] reads outside the table of [display_functype] exactly
    when an item other than the last is a function or a condition
    whose [functype] is not between 0 and 46. *)
Theorem cond_push_defined (tempCond : Item) (next_free : list Item) (level : Z) :
  cond_push_loop tempCond next_free level <> None <->
  Forall (fun i =>
            match item_type i with
            | FUNC_ITEM | COND_ITEM => 0 <= functype i < 47
            | _ => True
            end)
         (removelast (tempCond :: next_free)).
Proof.
  revert tempCond level. induction next_free as [|nxt rest IH]; intros tempCond level.
  - cbn. split; [constructor | discriminate].
  - change (removelast (tempCond :: nxt :: rest))
      with (tempCond :: removelast (nxt :: rest)).
    cbn [cond_push_loop].
    assert (Hitem : cond_push_item tempCond <> None <->
                    match item_type tempCond with
                    | FUNC_ITEM | COND_ITEM => 0 <= functype tempCond < 47
                    | _ => True
                    end).
    { unfold cond_push_item.
      destruct (item_type tempCond);
        try (split; [trivial | discriminate]);
        (rewrite <- display_functype_some;
         destruct (display_functype (functype tempCond));
         split; congruence). }
    specialize (IH nxt (level + 1)).
    destruct (cond_push_item tempCond) as [o|].
    + destruct (cond_push_loop nxt rest (level + 1)) as [[o' l']|].
      * split; [|discriminate]. intros _. constructor.
        -- apply Hitem. discriminate.
        -- apply IH. discriminate.
      * split; [congruence|]. intros H. inversion H as [|? ? _ Hrest]; subst.
        apply IH in Hrest. congruence.
    + split; [congruence|]. intros H. inversion H as [|? ? Hhead _]; subst.
      apply Hitem in Hhead. congruence.
Qed.
